(** * urd: a shallow embedding of [main.go]

    urd discovers the Kubernetes services of type LoadBalancer, fetches the
    CloudWatch statistics of their classic ELBs and re-exports them as
    Prometheus series.  This file embeds [main.go] function by function and
    proves properties of the embedding.

    Conventions of the embedding.
    - Go strings are byte strings: [string].
    - A Go pointer is an [option]; dereferencing [None] is the run-time panic
      "nil pointer dereference".  Indexing a slice out of range is the panic
      "index out of range".
    - [log.Fatal] ends the process with the error it prints; a panic that is
      not recovered ends the process too.  Both are outcomes of the [result]
      monad below, next to the normal return.
    - [float64] samples are modelled by exact rationals [Q]: rounding, NaN
      and infinities are not modelled.
    - The Kubernetes API, CloudWatch, the file system and the clock are the
      fields of a [World]; the Prometheus client library is modelled after
      its documented behaviour (part "Exported Metric Set").
    - Goroutines are modelled by an interleaving semantics driven by a
      schedule (part "Collection Cycle").

    The first half of the file holds the definitions, the second half the
    lemmas and theorems. *)

From Stdlib Require Import ZArith QArith Ascii String List Permutation Lia Bool.
From stdpp Require Import base option list strings gmap.

Local Open Scope string_scope.
Local Open Scope list_scope.

(** ** Outcomes of Go code *)

Inductive runtime_error : Type :=
| NilDereference        (* invalid memory address or nil pointer dereference *)
| IndexOutOfRange       (* index out of range *)
| CounterDecrease       (* prometheus: counter cannot decrease in value *)
| InconsistentCardinality (* prometheus: wrong number of label values *)
| NegativeWaitGroup.    (* sync: negative WaitGroup counter *)

(** A Go [error] value is represented by its message. *)
Definition error := string.

Inductive result (A : Type) : Type :=
| Ok (a : A)
| Fatal (err : error)          (* log.Fatal(err): the process exits *)
| Panic (e : runtime_error).   (* unrecovered panic: the process dies *)

Arguments Ok {A} a.
Arguments Fatal {A} err.
Arguments Panic {A} e.

Definition rbind {A B} (r : result A) (f : A -> result B) : result B :=
  match r with
  | Ok a => f a
  | Fatal err => Fatal err
  | Panic e => Panic e
  end.

Notation "x <~ c1 ;; c2" := (rbind c1 (fun x => c2))
  (at level 100, c1 at next level, right associativity).

Definition is_ok {A} (r : result A) : bool :=
  match r with Ok _ => true | _ => false end.

Definition is_some {A} (o : option A) : bool :=
  match o with Some _ => true | None => false end.

(** [*p] *)
Definition deref {A} (p : option A) : result A :=
  match p with
  | Some a => Ok a
  | None => Panic NilDereference
  end.

(** [xs[i]] *)
Definition index {A} (xs : list A) (i : nat) : result A :=
  match nth_error xs i with
  | Some a => Ok a
  | None => Panic IndexOutOfRange
  end.

(** ** Strings *)

Module Strings.

(** [strings.TrimPrefix(s, prefix)]: [s] without the leading [prefix], or
    [s] itself when it does not start with [prefix]. *)
Fixpoint strip (prefix s : string) : option string :=
  match prefix with
  | EmptyString => Some s
  | String p prefix' =>
      match s with
      | EmptyString => None
      | String c s' => if Ascii.eqb p c then strip prefix' s' else None
      end
  end.

Definition HasPrefix (s prefix : string) : bool :=
  match strip prefix s with Some _ => true | None => false end.

Definition TrimPrefix (s prefix : string) : string :=
  match strip prefix s with
  | Some rest => rest
  | None => s
  end.

End Strings.

(** ** Regular expressions

    The fragment of Go's [regexp] syntax that [main.go] uses, with the
    matching discipline [regexp] documents: the match begins as early as
    possible and, among the matches that begin there, it is the one a
    backtracking search finds first (greedy operators try the longest
    repetition first).  The matcher is written in continuation-passing
    style; the continuation receives the rest of the input and the
    submatches recorded so far. *)

Module Regexp.

Inductive regex : Type :=
| Lit (c : ascii)                  (* a literal byte *)
| AnyNotNL                         (* .  : any character but newline *)
| Range (lo hi : ascii)            (* [lo-hi] *)
| Cat (r1 r2 : regex)              (* r1r2 *)
| Star (r : regex)                 (* r*  (greedy) *)
| Rep (n : nat) (r : regex)        (* r{n} *)
| Capture (i : nat) (r : regex)    (* (r), the i-th capturing group *)
| NonCapture (r : regex).          (* (?:r) *)

(** Submatches recorded so far, most recent first. *)
Definition caps := list (nat * string).

Definition outcome := option (string * caps).
Definition cont := string -> caps -> outcome.

Definition newline : ascii := "010"%char.

Definition in_range (lo hi c : ascii) : bool :=
  (nat_of_ascii lo <=? nat_of_ascii c)%nat && (nat_of_ascii c <=? nat_of_ascii hi)%nat.

(** The text consumed between input [s] and its suffix [s']. *)
Definition consumed (s s' : string) : string :=
  substring 0 (String.length s - String.length s') s.

(** Greedy iteration of a body matcher; an iteration that consumes nothing
    is not repeated.  [fuel] bounds the number of iterations. *)
Fixpoint star_loop (body : string -> caps -> cont -> outcome)
    (fuel : nat) (s : string) (cs : caps) (k : cont) : outcome :=
  match fuel with
  | O => k s cs
  | S fuel' =>
      match body s cs (fun s' cs' =>
              if (String.length s' <? String.length s)%nat
              then star_loop body fuel' s' cs' k
              else None) with
      | Some res => Some res
      | None => k s cs
      end
  end.

Fixpoint rep_loop (body : string -> caps -> cont -> outcome)
    (n : nat) (s : string) (cs : caps) (k : cont) : outcome :=
  match n with
  | O => k s cs
  | S n' => body s cs (fun s' cs' => rep_loop body n' s' cs' k)
  end.

Fixpoint rmatch (r : regex) (s : string) (cs : caps) (k : cont) {struct r} : outcome :=
  match r with
  | Lit c =>
      match s with
      | String c' s' => if Ascii.eqb c c' then k s' cs else None
      | EmptyString => None
      end
  | AnyNotNL =>
      match s with
      | String c' s' => if Ascii.eqb c' newline then None else k s' cs
      | EmptyString => None
      end
  | Range lo hi =>
      match s with
      | String c' s' => if in_range lo hi c' then k s' cs else None
      | EmptyString => None
      end
  | Cat r1 r2 => rmatch r1 s cs (fun s' cs' => rmatch r2 s' cs' k)
  | Star r' => star_loop (rmatch r') (S (String.length s)) s cs k
  | Rep n r' => rep_loop (rmatch r') n s cs k
  | Capture i r' => rmatch r' s cs (fun s' cs' => k s' ((i, consumed s s') :: cs'))
  | NonCapture r' => rmatch r' s cs k
  end.

(** Number of capturing groups. *)
Fixpoint NumSubexp (r : regex) : nat :=
  match r with
  | Lit _ | AnyNotNL | Range _ _ => 0
  | Cat r1 r2 => Nat.max (NumSubexp r1) (NumSubexp r2)
  | Star r' | Rep _ r' | NonCapture r' => NumSubexp r'
  | Capture i r' => Nat.max i (NumSubexp r')
  end.

Fixpoint lookup_cap (i : nat) (cs : caps) : string :=
  match cs with
  | [] => ""
  | (j, t) :: cs' => if (i =? j)%nat then t else lookup_cap i cs'
  end.

(** A match of [r] that begins exactly at the head of [s]: the whole match
    followed by the text of each group. *)
Definition match_here (r : regex) (s : string) : option (list string) :=
  match rmatch r s [] (fun s' cs => Some (s', cs)) with
  | Some (s', cs) =>
      Some (consumed s s' :: map (fun i => lookup_cap i cs) (seq 1 (NumSubexp r)))
  | None => None
  end.

(** [re.FindStringSubmatch(s)]: the leftmost match, [None] (a nil slice)
    when there is none. *)
Fixpoint FindStringSubmatch (r : regex) (s : string) : option (list string) :=
  match match_here r s with
  | Some m => Some m
  | None =>
      match s with
      | EmptyString => None
      | String _ s' => FindStringSubmatch r s'
      end
  end.

End Regexp.

(** ** Name Resolver: [elbNameFromElbDNS] *)

Import Regexp.

(** The pattern given to [regexp.Compile]: capturing group 1 holds a greedy
    run of any characters but newline; it is followed by the non-capturing
    group of a dash and six digits.  The pattern is a constant and it
    compiles, so the [err != nil] branch of the source is never taken. *)
Definition elbDNS_re : regex :=
  Cat (Capture 1 (Star AnyNotNL))
      (NonCapture (Cat (Lit "-"%char) (Rep 6 (Range "0"%char "9"%char)))).

Definition elbNameFromElbDNS (elbDNS : string) : result string :=
  let re := elbDNS_re in
  let submatch := match FindStringSubmatch re elbDNS with
                  | Some m => m
                  | None => []          (* nil slice *)
                  end in
  elbName <~ index submatch 1 ;;
  Ok (Strings.TrimPrefix elbName "internal-").

(** *** What the pattern matches *)

(** [skip_digits n s]: [s] without its first [n] characters, when these are
    digits. *)
Fixpoint skip_digits (n : nat) (s : string) : option string :=
  match n with
  | O => Some s
  | S n' =>
      match s with
      | String c s' => if in_range "0"%char "9"%char c then skip_digits n' s' else None
      | EmptyString => None
      end
  end.

(** The rest of [s] after a numeric group (a dash and six digits) at its
    head. *)
Definition group_rest (s : string) : option string :=
  match s with
  | String c s' => if Ascii.eqb "-"%char c then skip_digits 6 s' else None
  | EmptyString => None
  end.

Definition starts_group (s : string) : bool :=
  match group_rest s with Some _ => true | None => false end.

(** A numeric group begins somewhere in [s]. *)
Fixpoint has_group (s : string) : bool :=
  starts_group s ||
  match s with
  | String _ s' => has_group s'
  | EmptyString => false
  end.

Fixpoint newline_free (s : string) : bool :=
  match s with
  | String c s' => negb (Ascii.eqb c newline) && newline_free s'
  | EmptyString => true
  end.

Definition string_tail (s : string) : string :=
  match s with
  | String _ s' => s'
  | EmptyString => EmptyString
  end.

(** The backtracking order of a greedy run of non-newline characters: the
    longest run first, then each shorter one. *)
Fixpoint greedy_any (s : string) (cs : caps) (k : cont) : outcome :=
  match s with
  | String c s' =>
      if Ascii.eqb c newline then k s cs
      else match greedy_any s' cs k with
           | Some res => Some res
           | None => k s cs
           end
  | EmptyString => k s cs
  end.

(** The continuation that [elbDNS_re] runs after group 1, for a match that
    began at the head of [s0]. *)
Definition after_name (s0 : string) : cont :=
  fun s' cs' =>
    rmatch (NonCapture (Cat (Lit "-"%char) (Rep 6 (Range "0"%char "9"%char))))
      s' ((1%nat, consumed s0 s') :: cs') (fun s'' cs'' => Some (s'', cs'')).

(** *** The Name Resolver of the specification

    The spec describes the result as the text before the first numeric
    group of the hostname, without the [internal-] prefix.  The two
    definitions below follow these words; they are compared with
    [elbNameFromElbDNS] in the theorems. *)

Fixpoint before_first_group (s : string) : option string :=
  if starts_group s then Some ""
  else match s with
       | String c s' => option_map (String c) (before_first_group s')
       | EmptyString => None
       end.

Definition spec_elbName (h : string) : option string :=
  option_map (fun name => Strings.TrimPrefix name "internal-") (before_first_group h).

Fixpoint all_digits (s : string) : bool :=
  match s with
  | String c s' => in_range "0"%char "9"%char c && all_digits s'
  | EmptyString => true
  end.

(** The hostname pattern of the spec: an optional [internal-] prefix, an
    identifier, a dash, a numeric suffix and a domain suffix. *)
Definition expected_pattern (h : string) : Prop :=
  exists pre ident num domain : string,
    h = pre +:+ ident +:+ "-" +:+ num +:+ domain /\
    (pre = "" \/ pre = "internal-") /\
    ident <> "" /\
    all_digits num = true /\ (6 <= String.length num)%nat /\
    Strings.HasPrefix domain "." = true.

(** ** The collaborators: Kubernetes API types, CloudWatch, the world

    The types of [github.com/ericchiang/k8s/api/v1] and of the CloudWatch
    SDK are generated structs whose fields are pointers; only the fields
    that [main.go] reads are kept. *)

Record ObjectMeta := {
  Name : option string;
  Namespace : option string;
}.

Record api_Namespace := { ns_Metadata : option ObjectMeta }.

Record NamespaceList := { ns_Items : list (option api_Namespace) }.

Record LoadBalancerIngress := {
  Ip : option string;
  Hostname : option string;
}.

Record LoadBalancerStatus := { Ingress : list (option LoadBalancerIngress) }.

Record ServiceStatus := { LoadBalancer : option LoadBalancerStatus }.

Record ServiceSpec := { Type_ : option string }.

Record api_Service := {
  Metadata : option ObjectMeta;
  Spec : option ServiceSpec;
  Status : option ServiceStatus;
}.

Record ServiceList := { svc_Items : list (option api_Service) }.

(** A Go call that returns [(value, error)]. *)
Definition go_pair (A : Type) : Type := (option A * option error)%type.

(** The two listing calls of a client, as the API server answers them. *)
Record k8s_Client := {
  ListNamespaces : go_pair NamespaceList;
  ListServices : string -> go_pair ServiceList;
}.

Record k8s_Config := { config_data : string }.

(** Times are nanoseconds; so are durations ([time.Duration] is an
    [int64] count of nanoseconds). *)
Definition time_Minute : Z := 60000000000.

Record Dimension := { dim_Name : string; dim_Value : string }.

Record GetMetricStatisticsInput := {
  Dimensions : list Dimension;
  StartTime : Z;
  EndTime : Z;
  in_MetricName : string;
  in_Namespace : string;
  Period : Z;
  Statistics : list string;
}.

Record Datapoint := {
  Sum : option Q;
  Average : option Q;
  Maximum : option Q;
  Minimum : option Q;
}.

Record GetMetricStatisticsOutput := { Datapoints : list (option Datapoint) }.

(** Everything outside the process, as one collection cycle sees it.  The
    fetches of one cycle all read the same instant [time_Now].
    [k8s.NewClient] may read the files that the config names by path
    (certificates, keys, tokens): it receives the file system. *)
Record World := {
  os_Getenv : string -> string;
  ioutil_ReadFile : string -> string * option error;
  yaml_Unmarshal : string -> k8s_Config * option error;
  k8s_NewClient : (string -> string * option error) -> k8s_Config -> go_pair k8s_Client;
  cw_GetMetricStatistics : GetMetricStatisticsInput -> go_pair GetMetricStatisticsOutput;
  time_Now : Z;
}.

(** [if err != nil { log.Fatal(err) }] *)
Definition fatal_on (err : option error) : result unit :=
  match err with
  | Some e => Fatal e
  | None => Ok tt
  end.

(** ** Service Discovery: [loadClient], [getAllServices] *)

Definition loadClient (w : World) : go_pair k8s_Client :=
  let kubeconfigPath := "/srv/kubernetes/kubeconfig" in
  let kubeconfigPath :=
    let kubeCfg := os_Getenv w "URD_KUBECONFIG_PATH" in
    if negb (String.eqb kubeCfg "") then kubeCfg else kubeconfigPath in
  let '(data, err) := ioutil_ReadFile w kubeconfigPath in
  match err with
  | Some e => (None, Some ("read kubeconfig: " +:+ e))
  | None =>
      let '(config, err) := yaml_Unmarshal w data in
      match err with
      | Some e => (None, Some ("unmarshal kubeconfig: " +:+ e))
      | None => k8s_NewClient w (ioutil_ReadFile w) config
      end
  end.

(** The inner loop: [for _, service := range svc.Items]. *)
Fixpoint range_services (items : list (option api_Service)) (services : list api_Service)
    : result (list api_Service) :=
  match items with
  | [] => Ok services
  | service :: items' =>
      s <~ deref service ;;
      spec <~ deref (Spec s) ;;
      ty <~ deref (Type_ spec) ;;
      if String.eqb ty "LoadBalancer"
      then range_services items' (services ++ [s])
      else range_services items' services
  end.

(** The outer loop: [for _, namespace := range namespaces.Items]. *)
Fixpoint range_namespaces (k8sClient : k8s_Client) (items : list (option api_Namespace))
    (services : list api_Service) : result (list api_Service) :=
  match items with
  | [] => Ok services
  | namespace :: items' =>
      ns <~ deref namespace ;;
      md <~ deref (ns_Metadata ns) ;;
      name <~ deref (Name md) ;;
      let '(svc, err) := ListServices k8sClient name in
      _ <~ fatal_on err ;;
      svc <~ deref svc ;;
      services <~ range_services (svc_Items svc) services ;;
      range_namespaces k8sClient items' services
  end.

Definition getAllServices (w : World) : result (list api_Service) :=
  let '(k8sClient, err) := loadClient w in
  _ <~ fatal_on err ;;
  k8sClient <~ deref k8sClient ;;
  (* the error of ListNamespaces is assigned and never read *)
  let '(namespaces, err) := ListNamespaces k8sClient in
  let services := [] in
  namespaces <~ deref namespaces ;;
  services <~ range_namespaces k8sClient (ns_Items namespaces) services ;;
  Ok services.

(** ** Metric Fetcher: [getElbMetric] *)

Definition getElbMetric (w : World) (elbName metricName statisticType : string)
    : result (option Q) :=
  let currentTime := time_Now w in
  let lastMinute := (currentTime + (-1) * time_Minute)%Z in
  let '(data, err) :=
    cw_GetMetricStatistics w
      {| Dimensions := [ {| dim_Name := "LoadBalancerName"; dim_Value := elbName |} ];
         StartTime := lastMinute;
         EndTime := currentTime;
         in_MetricName := metricName;
         in_Namespace := "AWS/ELB";
         Period := 60;
         Statistics := [statisticType] |} in
  _ <~ fatal_on err ;;
  data <~ deref data ;;
  if (length (Datapoints data) =? 0)%nat then
    let r := 0%Q in Ok (Some r)
  else
    dp <~ index (Datapoints data) 0 ;;
    if String.eqb statisticType "Sum" then dp <~ deref dp ;; Ok (Sum dp)
    else if String.eqb statisticType "Average" then dp <~ deref dp ;; Ok (Average dp)
    else if String.eqb statisticType "Maximum" then dp <~ deref dp ;; Ok (Maximum dp)
    else if String.eqb statisticType "Minimum" then dp <~ deref dp ;; Ok (Minimum dp)
    else Ok None.

(** ** Exported Metric Set: the Prometheus vectors

    A vector maps a tuple of label values to its series; a series is created
    on its first use.  As the client library documents: [WithLabelValues]
    panics when the number of values differs from the number of label names
    of the vector; [Counter.Add] panics on a negative value and adds
    otherwise; [Gauge.Set] overwrites; [Histogram.Observe] records one more
    observation. *)

Definition Qltb (x y : Q) : bool := negb (Qle_bool y x).

Definition WithLabelValues (labelNames lvs : list string) : result (list string) :=
  if (length lvs =? length labelNames)%nat then Ok lvs
  else Panic InconsistentCardinality.

Definition Counter_Add (labelNames lvs : list string) (v : Q)
    (vec : gmap (list string) Q) : result (gmap (list string) Q) :=
  key <~ WithLabelValues labelNames lvs ;;
  if Qltb v 0 then Panic CounterDecrease
  else Ok (<[key := (default 0%Q (vec !! key) + v)%Q]> vec).

Definition Gauge_Set (labelNames lvs : list string) (v : Q)
    (vec : gmap (list string) Q) : result (gmap (list string) Q) :=
  key <~ WithLabelValues labelNames lvs ;;
  Ok (<[key := v]> vec).

Definition Histogram_Observe (labelNames lvs : list string) (v : Q)
    (vec : gmap (list string) (list Q)) : result (gmap (list string) (list Q)) :=
  key <~ WithLabelValues labelNames lvs ;;
  Ok (<[key := default [] (vec !! key) ++ [v]]> vec).

(** The package-level vectors of [main.go]. *)
Record Registry := {
  httpRequestsTotal : gmap (list string) Q;          (* urd_http_requests_total *)
  backendConnectionsErrors : gmap (list string) Q;   (* backend_connection_errors_total *)
  healthyHostCount : gmap (list string) Q;           (* urd_healthy_hosts_count *)
  elbLatency : gmap (list string) (list Q);          (* urd_average_elb_latency *)
  requestCount : gmap (list string) Q;               (* urd_request_count *)
  spilloverCount : gmap (list string) Q;             (* urd_spillovercount_total *)
  surgeQueueLength : gmap (list string) Q;           (* urd_surge_queue_length *)
  unhealthyHostCount : gmap (list string) Q;         (* urd_unhealthy_hosts_count *)
}.

(** The label names that [init] gives the vectors. *)
Definition status_labels : list string := ["status"; "elb_name"; "svc_name"; "namespace"].
Definition elb_labels : list string := ["elb_name"; "svc_name"; "namespace"].

(** [init]: every vector starts without series. *)
Definition init : Registry :=
  {| httpRequestsTotal := ∅; backendConnectionsErrors := ∅; healthyHostCount := ∅;
     elbLatency := ∅; requestCount := ∅; spilloverCount := ∅; surgeQueueLength := ∅;
     unhealthyHostCount := ∅ |}.

Definition set_httpRequestsTotal (v : gmap (list string) Q) (r : Registry) : Registry :=
  {| httpRequestsTotal := v; backendConnectionsErrors := backendConnectionsErrors r;
     healthyHostCount := healthyHostCount r; elbLatency := elbLatency r;
     requestCount := requestCount r; spilloverCount := spilloverCount r;
     surgeQueueLength := surgeQueueLength r; unhealthyHostCount := unhealthyHostCount r |}.

Definition set_backendConnectionsErrors (v : gmap (list string) Q) (r : Registry) : Registry :=
  {| httpRequestsTotal := httpRequestsTotal r; backendConnectionsErrors := v;
     healthyHostCount := healthyHostCount r; elbLatency := elbLatency r;
     requestCount := requestCount r; spilloverCount := spilloverCount r;
     surgeQueueLength := surgeQueueLength r; unhealthyHostCount := unhealthyHostCount r |}.

Definition set_healthyHostCount (v : gmap (list string) Q) (r : Registry) : Registry :=
  {| httpRequestsTotal := httpRequestsTotal r;
     backendConnectionsErrors := backendConnectionsErrors r;
     healthyHostCount := v; elbLatency := elbLatency r;
     requestCount := requestCount r; spilloverCount := spilloverCount r;
     surgeQueueLength := surgeQueueLength r; unhealthyHostCount := unhealthyHostCount r |}.

Definition set_elbLatency (v : gmap (list string) (list Q)) (r : Registry) : Registry :=
  {| httpRequestsTotal := httpRequestsTotal r;
     backendConnectionsErrors := backendConnectionsErrors r;
     healthyHostCount := healthyHostCount r; elbLatency := v;
     requestCount := requestCount r; spilloverCount := spilloverCount r;
     surgeQueueLength := surgeQueueLength r; unhealthyHostCount := unhealthyHostCount r |}.

Definition set_requestCount (v : gmap (list string) Q) (r : Registry) : Registry :=
  {| httpRequestsTotal := httpRequestsTotal r;
     backendConnectionsErrors := backendConnectionsErrors r;
     healthyHostCount := healthyHostCount r; elbLatency := elbLatency r;
     requestCount := v; spilloverCount := spilloverCount r;
     surgeQueueLength := surgeQueueLength r; unhealthyHostCount := unhealthyHostCount r |}.

Definition set_spilloverCount (v : gmap (list string) Q) (r : Registry) : Registry :=
  {| httpRequestsTotal := httpRequestsTotal r;
     backendConnectionsErrors := backendConnectionsErrors r;
     healthyHostCount := healthyHostCount r; elbLatency := elbLatency r;
     requestCount := requestCount r; spilloverCount := v;
     surgeQueueLength := surgeQueueLength r; unhealthyHostCount := unhealthyHostCount r |}.

Definition set_surgeQueueLength (v : gmap (list string) Q) (r : Registry) : Registry :=
  {| httpRequestsTotal := httpRequestsTotal r;
     backendConnectionsErrors := backendConnectionsErrors r;
     healthyHostCount := healthyHostCount r; elbLatency := elbLatency r;
     requestCount := requestCount r; spilloverCount := spilloverCount r;
     surgeQueueLength := v; unhealthyHostCount := unhealthyHostCount r |}.

Definition set_unhealthyHostCount (v : gmap (list string) Q) (r : Registry) : Registry :=
  {| httpRequestsTotal := httpRequestsTotal r;
     backendConnectionsErrors := backendConnectionsErrors r;
     healthyHostCount := healthyHostCount r; elbLatency := elbLatency r;
     requestCount := requestCount r; spilloverCount := spilloverCount r;
     surgeQueueLength := surgeQueueLength r; unhealthyHostCount := v |}.

(** ** Metric Catalog: [elbMetric], [metrics] *)

Record elbMetric := {
  MetricName : string;
  Statistic : string;
  Prometheus : string -> option string -> option string -> Q -> Registry -> result Registry;
}.

(** [metrics] maps the metrics of the classic ELBs to their useful
    statistics.  In each closure the two pointers are dereferenced, then
    [WithLabelValues] and the operation of the series run. *)
Definition metrics : list elbMetric := [
  {| MetricName := "HTTPCode_Backend_2XX"; Statistic := "Sum";
     Prometheus := fun elbName svcName ns value reg =>
       svcName <~ deref svcName ;; ns <~ deref ns ;;
       vec <~ Counter_Add status_labels ["2XX"; elbName; svcName; ns] value (httpRequestsTotal reg) ;;
       Ok (set_httpRequestsTotal vec reg) |};
  {| MetricName := "HTTPCode_Backend_3XX"; Statistic := "Sum";
     Prometheus := fun elbName svcName ns value reg =>
       svcName <~ deref svcName ;; ns <~ deref ns ;;
       vec <~ Counter_Add status_labels ["3XX"; elbName; svcName; ns] value (httpRequestsTotal reg) ;;
       Ok (set_httpRequestsTotal vec reg) |};
  {| MetricName := "HTTPCode_Backend_4XX"; Statistic := "Sum";
     Prometheus := fun elbName svcName ns value reg =>
       svcName <~ deref svcName ;; ns <~ deref ns ;;
       vec <~ Counter_Add status_labels ["4XX"; elbName; svcName; ns] value (httpRequestsTotal reg) ;;
       Ok (set_httpRequestsTotal vec reg) |};
  {| MetricName := "HTTPCode_Backend_5XX"; Statistic := "Sum";
     Prometheus := fun elbName svcName ns value reg =>
       svcName <~ deref svcName ;; ns <~ deref ns ;;
       vec <~ Counter_Add status_labels ["5XX"; elbName; svcName; ns] value (httpRequestsTotal reg) ;;
       Ok (set_httpRequestsTotal vec reg) |};
  {| MetricName := "HTTPCode_ELB_4XX"; Statistic := "Sum";
     Prometheus := fun elbName svcName ns value reg =>
       svcName <~ deref svcName ;; ns <~ deref ns ;;
       vec <~ Counter_Add status_labels ["ELB_4XX"; elbName; svcName; ns] value (httpRequestsTotal reg) ;;
       Ok (set_httpRequestsTotal vec reg) |};
  {| MetricName := "HTTPCode_ELB_5XX"; Statistic := "Sum";
     Prometheus := fun elbName svcName ns value reg =>
       svcName <~ deref svcName ;; ns <~ deref ns ;;
       vec <~ Counter_Add status_labels ["ELB_5XX"; elbName; svcName; ns] value (httpRequestsTotal reg) ;;
       Ok (set_httpRequestsTotal vec reg) |};
  {| MetricName := "BackendConnectionErrors"; Statistic := "Sum";
     Prometheus := fun elbName svcName ns value reg =>
       svcName <~ deref svcName ;; ns <~ deref ns ;;
       vec <~ Counter_Add elb_labels [elbName; svcName; ns] value (backendConnectionsErrors reg) ;;
       Ok (set_backendConnectionsErrors vec reg) |};
  {| MetricName := "HealthyHostCount"; Statistic := "Average";
     Prometheus := fun elbName svcName ns value reg =>
       svcName <~ deref svcName ;; ns <~ deref ns ;;
       vec <~ Gauge_Set elb_labels [elbName; svcName; ns] value (healthyHostCount reg) ;;
       Ok (set_healthyHostCount vec reg) |};
  {| MetricName := "Latency"; Statistic := "Average";
     Prometheus := fun elbName svcName ns value reg =>
       svcName <~ deref svcName ;; ns <~ deref ns ;;
       vec <~ Histogram_Observe elb_labels [elbName; svcName; ns] value (elbLatency reg) ;;
       Ok (set_elbLatency vec reg) |};
  {| MetricName := "RequestCount"; Statistic := "Sum";
     Prometheus := fun elbName svcName ns value reg =>
       svcName <~ deref svcName ;; ns <~ deref ns ;;
       vec <~ Counter_Add elb_labels [elbName; svcName; ns] value (requestCount reg) ;;
       Ok (set_requestCount vec reg) |};
  {| MetricName := "SpilloverCount"; Statistic := "Sum";
     Prometheus := fun elbName svcName ns value reg =>
       svcName <~ deref svcName ;; ns <~ deref ns ;;
       vec <~ Counter_Add elb_labels [elbName; svcName; ns] value (spilloverCount reg) ;;
       Ok (set_spilloverCount vec reg) |};
  {| MetricName := "SurgeQueueLength"; Statistic := "Maximum";
     Prometheus := fun elbName svcName ns value reg =>
       svcName <~ deref svcName ;; ns <~ deref ns ;;
       vec <~ Counter_Add elb_labels [elbName; svcName; ns] value (surgeQueueLength reg) ;;
       Ok (set_surgeQueueLength vec reg) |};
  {| MetricName := "UnHealthyHostCount"; Statistic := "Average";
     Prometheus := fun elbName svcName ns value reg =>
       svcName <~ deref svcName ;; ns <~ deref ns ;;
       vec <~ Gauge_Set elb_labels [elbName; svcName; ns] value (unhealthyHostCount reg) ;;
       Ok (set_unhealthyHostCount vec reg) |}
].

(** ** Collection Cycle: [collectMetrics] *)

(** The body of the closure [getMetric], up to the call of [wg.Done].  Of
    the arguments of [m.Prometheus] the call of [getElbMetric] runs first:
    Go orders the calls of an expression among themselves only, and the
    compiler loads [s.Metadata.Name] and [s.Metadata.Namespace] and
    dereferences the result after the call has returned. *)
Definition getMetric (w : World) (m : elbMetric) (s : api_Service) (reg : Registry)
    : result Registry :=
  status <~ deref (Status s) ;;
  lb <~ deref (LoadBalancer status) ;;
  ingress <~ index (Ingress lb) 0 ;;
  ingress <~ deref ingress ;;
  hostname <~ deref (Hostname ingress) ;;
  elbName <~ elbNameFromElbDNS hostname ;;
  value <~ getElbMetric w elbName (MetricName m) (Statistic m) ;;
  md <~ deref (Metadata s) ;;
  value <~ deref value ;;
  Prometheus m elbName (Name md) (Namespace md) value reg.

(** A goroutine started by [go getMetric(metric, service)]. *)
Abbreviation task := (elbMetric * api_Service)%type.

(** The pairs of the nested loops, in the order of the [go] statements. *)
Definition fanout (services : list api_Service) : list task :=
  flat_map (fun service => map (fun metric => (metric, service)) metrics) services.

Inductive death : Type :=
| ByFatal (err : error)
| ByPanic (e : runtime_error).

(** The state of one run of [collectMetrics] after discovery.  The
    WaitGroup counter is an unbounded integer here. *)
Record cycle_state := {
  c_todo : list task;       (* go statements that main has still to execute *)
  c_started : list task;    (* goroutines that have not entered getMetric yet *)
  c_ran : list task;        (* goroutines past m.Prometheus, in the order they got there *)
  c_exited : nat;           (* goroutines past wg.Done() *)
  c_wg : Z;                 (* the counter of wg *)
  c_reg : Registry;         (* the exported metric set *)
  c_dead : option death;    (* the process has died *)
  c_returned : bool;        (* wg.Wait() has returned *)
}.

(** What the scheduler may choose next.  A goroutine shares nothing with
    the others but the exported metric set, which it touches in one atomic
    operation at the end of [getMetric]: its body is one step, its call of
    [wg.Done] another. *)
Inductive action : Type :=
| ActGo                 (* main executes the next go statement *)
| ActBody (i : nat)     (* the i-th started goroutine runs getMetric up to wg.Done *)
| ActDone               (* a goroutine past m.Prometheus calls wg.Done() *)
| ActWait.              (* wg.Wait() returns in main *)

Definition kill (d : death) (st : cycle_state) : cycle_state :=
  {| c_todo := c_todo st; c_started := c_started st; c_ran := c_ran st;
     c_exited := c_exited st; c_wg := c_wg st; c_reg := c_reg st;
     c_dead := Some d; c_returned := c_returned st |}.

(** One scheduling step; [None] when the action is not enabled.  Nothing is
    enabled once the process has died or [collectMetrics] has returned. *)
Definition step (w : World) (a : action) (st : cycle_state) : option cycle_state :=
  match c_dead st with
  | Some _ => None
  | None =>
      if c_returned st then None
      else
        match a with
        | ActGo =>
            match c_todo st with
            | t :: todo =>
                Some {| c_todo := todo; c_started := c_started st ++ [t]; c_ran := c_ran st;
                        c_exited := c_exited st; c_wg := c_wg st; c_reg := c_reg st;
                        c_dead := None; c_returned := false |}
            | [] => None
            end
        | ActBody i =>
            match c_started st !! i with
            | Some (m, s) =>
                match getMetric w m s (c_reg st) with
                | Ok reg' =>
                    Some {| c_todo := c_todo st; c_started := delete i (c_started st);
                            c_ran := c_ran st ++ [(m, s)];
                            c_exited := c_exited st; c_wg := c_wg st; c_reg := reg';
                            c_dead := None; c_returned := false |}
                | Fatal err => Some (kill (ByFatal err) st)
                | Panic e => Some (kill (ByPanic e) st)
                end
            | None => None
            end
        | ActDone =>
            if (c_exited st <? length (c_ran st))%nat then
              if (c_wg st - 1 <? 0)%Z then Some (kill (ByPanic NegativeWaitGroup) st)
              else
                Some {| c_todo := c_todo st; c_started := c_started st; c_ran := c_ran st;
                        c_exited := S (c_exited st); c_wg := (c_wg st - 1)%Z;
                        c_reg := c_reg st; c_dead := None; c_returned := false |}
            else None
        | ActWait =>
            match c_todo st with
            | [] =>
                if (c_wg st =? 0)%Z then
                  Some {| c_todo := []; c_started := c_started st; c_ran := c_ran st;
                          c_exited := c_exited st; c_wg := c_wg st; c_reg := c_reg st;
                          c_dead := None; c_returned := true |}
                else None
            | _ :: _ => None
            end
        end
  end.

Fixpoint run (w : World) (sched : list action) (st : cycle_state) : option cycle_state :=
  match sched with
  | [] => Some st
  | a :: sched' =>
      match step w a st with
      | Some st' => run w sched' st'
      | None => None
      end
  end.

(** The state after [wg.Add(len(services) * len(metrics))]. *)
Definition cycle_start (reg : Registry) (services : list api_Service) : cycle_state :=
  {| c_todo := fanout services; c_started := []; c_ran := []; c_exited := 0;
     c_wg := Z.of_nat (length services * length metrics);
     c_reg := reg; c_dead := None; c_returned := false |}.

(** [collectMetrics] under a schedule: discovery, then the fan-out. *)
Definition collectMetrics (w : World) (sched : list action) (reg : Registry)
    : option cycle_state :=
  match getAllServices w with
  | Ok services => run w sched (cycle_start reg services)
  | Fatal err => Some (kill (ByFatal err) (cycle_start reg []))
  | Panic e => Some (kill (ByPanic e) (cycle_start reg []))
  end.

(** The schedule that starts every goroutine, runs them one after the other
    and then lets [wg.Wait] return. *)
Definition sequential (n : nat) : list action :=
  repeat ActGo n ++ repeat (ActBody 0) n ++ repeat ActDone n ++ [ActWait].

(** Task bodies run one after the other. *)
Fixpoint run_bodies (w : World) (ts : list task) (reg : Registry) : result Registry :=
  match ts with
  | [] => Ok reg
  | (m, s) :: ts' => reg' <~ getMetric w m s reg ;; run_bodies w ts' reg'
  end.

(** ** Scheduler: the loop of [main] *)

Definition max_int64 : Z := 9223372036854775807.
Definition min_int64 : Z := -9223372036854775808.

(** Arithmetic of [int64] wraps around. *)
Definition wrap_int64 (z : Z) : Z := ((z - min_int64) mod 2 ^ 64 + min_int64)%Z.

(** [t.Sub(u)]: the difference, saturated to the range of [time.Duration]. *)
Definition time_Sub (t u : Z) : Z := Z.max min_int64 (Z.min max_int64 (t - u)).

(** [time.Sleep(d)]: the clock after the sleep; a negative or zero duration
    returns at once. *)
Definition time_Sleep (d : Z) (clock : Z) : Z := (clock + Z.max 0 d)%Z.

(** What one iteration of the loop meets: the world of its cycle, the
    schedule of its goroutines and the time [collectMetrics] takes. *)
Record Cycle := {
  cy_world : World;
  cy_schedule : list action;
  cy_elapsed : Z;
}.

Record main_state := {
  m_clock : Z;              (* the wall clock *)
  m_reg : Registry;         (* the exported metric set *)
  m_begins : list Z;        (* the instants at which the cycles began *)
  m_slept : list Z;         (* how long each time.Sleep lasted *)
}.

(** One iteration of [for { ... }]; [None] when [collectMetrics] does not
    return under the schedule (the process died or the schedule stops
    short). *)
Definition main_iteration (c : Cycle) (st : main_state) : option main_state :=
  let begin := m_clock st in
  match collectMetrics (cy_world c) (cy_schedule c) (m_reg st) with
  | Some cst =>
      if c_returned cst then
        let now := (begin + cy_elapsed c)%Z in
        let timediff := time_Sub now begin in
        let d := wrap_int64 (time_Minute - timediff) in
        Some {| m_clock := time_Sleep d now;
                m_reg := c_reg cst;
                m_begins := m_begins st ++ [begin];
                m_slept := m_slept st ++ [(time_Sleep d now - now)%Z] |}
      else None
  | None => None
  end.

(** The first iterations of the loop, one per element of [cs]. *)
Fixpoint main_loop (cs : list Cycle) (st : main_state) : option main_state :=
  match cs with
  | [] => Some st
  | c :: cs' =>
      match main_iteration c st with
      | Some st' => main_loop cs' st'
      | None => None
      end
  end.

Definition main_start (clock : Z) : main_state :=
  {| m_clock := clock; m_reg := init; m_begins := []; m_slept := [] |}.

(** ** Words of the specification

    The definitions below are not part of [main.go]: they phrase what the
    theorems say about it. *)

(** The request for the trailing minute: the window of 60 seconds that ends
    when the fetch is invoked, one period, the single statistic asked for. *)
Definition trailing_minute (w : World) (elbName metricName statisticType : string)
    : GetMetricStatisticsInput :=
  {| Dimensions := [ {| dim_Name := "LoadBalancerName"; dim_Value := elbName |} ];
     StartTime := (time_Now w - time_Minute)%Z;
     EndTime := time_Now w;
     in_MetricName := metricName;
     in_Namespace := "AWS/ELB";
     Period := 60;
     Statistics := [statisticType] |}.

(** The declared exposure type of a service. *)
Definition service_type (s : api_Service) : option string :=
  match Spec s with
  | Some spec => Type_ spec
  | None => None
  end.

Definition is_LoadBalancer (s : api_Service) : bool :=
  match service_type s with
  | Some ty => String.eqb ty "LoadBalancer"
  | None => false
  end.

Definition namespace_name (ns : option api_Namespace) : option string :=
  match ns with
  | Some n =>
      match ns_Metadata n with
      | Some md => Name md
      | None => None
      end
  | None => None
  end.

(** The services of a namespace, when its listing succeeds. *)
Definition listed_services (client : k8s_Client) (ns : option api_Namespace)
    : option (list (option api_Service)) :=
  match namespace_name ns with
  | Some name =>
      match ListServices client name with
      | (Some sl, None) => Some (svc_Items sl)
      | _ => None
      end
  | None => None
  end.

(** A listed service is complete when it is present and declares its type,
    as the API server returns it. *)
Definition complete_service (s : option api_Service) : Prop :=
  exists s', s = Some s' /\ service_type s' <> None.

Definition complete_listing (client : k8s_Client) (ns : option api_Namespace) : Prop :=
  exists items, listed_services client ns = Some items /\ Forall complete_service items.

(** The load-balanced services among listed ones, in their order. *)
Fixpoint load_balanced (items : list (option api_Service)) : list api_Service :=
  match items with
  | [] => []
  | Some s :: items' =>
      if is_LoadBalancer s then s :: load_balanced items' else load_balanced items'
  | None :: items' => load_balanced items'
  end.

Definition all_load_balanced (client : k8s_Client) (nss : list (option api_Namespace))
    : list api_Service :=
  flat_map (fun ns => match listed_services client ns with
                      | Some items => load_balanced items
                      | None => []
                      end) nss.

(** What every reachable state of a cycle satisfies: the goroutines started
    so far are the first pairs of the fan-out; the WaitGroup counts the
    goroutines that have not called [wg.Done] yet; only goroutines past
    their body call it; the exported metric set is the effect of the bodies
    that ran, in their order; and [wg.Wait] has returned only with the
    counter at zero and every [go] statement executed. *)
Definition cycle_inv (w : World) (reg0 : Registry) (services : list api_Service)
    (st : cycle_state) : Prop :=
  (exists issued, issued ++ c_todo st = fanout services /\
                  Permutation (c_ran st ++ c_started st) issued) /\
  c_wg st = (Z.of_nat (length (fanout services)) - Z.of_nat (c_exited st))%Z /\
  (c_exited st <= length (c_ran st))%nat /\
  run_bodies w (c_ran st) reg0 = Ok (c_reg st) /\
  (c_returned st = true -> c_todo st = [] /\ c_wg st = 0%Z /\ c_dead st = None).

(** The ingress list of the load balancer of a service, when the service
    has a load-balancer status at all. *)
Definition service_ingress (s : api_Service) : option (list (option LoadBalancerIngress)) :=
  match Status s with
  | Some status =>
      match LoadBalancer status with
      | Some lb => Some (Ingress lb)
      | None => None
      end
  | None => None
  end.

(** The public hostname assigned to a service: the one of its first
    ingress. *)
Definition service_hostname (s : api_Service) : option string :=
  match service_ingress s with
  | Some (Some ingress :: _) => Hostname ingress
  | _ => None
  end.

(** *** Series of the exported metric set *)

(** The eight vectors, by the variable that holds them. *)
Inductive family : Type :=
| FHttpRequestsTotal
| FBackendConnectionsErrors
| FHealthyHostCount
| FElbLatency
| FRequestCount
| FSpilloverCount
| FSurgeQueueLength
| FUnhealthyHostCount.

#[export] Instance family_eq_dec : EqDecision family.
Proof. solve_decision. Defined.

(** The names under which [init] registers the vectors. *)
Definition family_name (f : family) : string :=
  match f with
  | FHttpRequestsTotal => "urd_http_requests_total"
  | FBackendConnectionsErrors => "backend_connection_errors_total"
  | FHealthyHostCount => "urd_healthy_hosts_count"
  | FElbLatency => "urd_average_elb_latency"
  | FRequestCount => "urd_request_count"
  | FSpilloverCount => "urd_spillovercount_total"
  | FSurgeQueueLength => "urd_surge_queue_length"
  | FUnhealthyHostCount => "urd_unhealthy_hosts_count"
  end.

(** [NewCounterVec], [NewGaugeVec] or [NewHistogramVec]. *)
Definition is_counter (f : family) : bool :=
  match f with
  | FHttpRequestsTotal | FBackendConnectionsErrors | FRequestCount
  | FSpilloverCount | FSurgeQueueLength => true
  | _ => false
  end.

Definition is_gauge (f : family) : bool :=
  match f with
  | FHealthyHostCount | FUnhealthyHostCount => true
  | _ => false
  end.

(** The state of a series: the value of a counter or a gauge, or the
    observations of a histogram. *)
Inductive sample : Type :=
| Scalar (q : Q)
| Observations (qs : list Q).

(** The series of a family under a tuple of label values. *)
Definition series (key : family * list string) (reg : Registry) : option sample :=
  match fst key with
  | FHttpRequestsTotal => option_map Scalar (httpRequestsTotal reg !! snd key)
  | FBackendConnectionsErrors => option_map Scalar (backendConnectionsErrors reg !! snd key)
  | FHealthyHostCount => option_map Scalar (healthyHostCount reg !! snd key)
  | FElbLatency => option_map Observations (elbLatency reg !! snd key)
  | FRequestCount => option_map Scalar (requestCount reg !! snd key)
  | FSpilloverCount => option_map Scalar (spilloverCount reg !! snd key)
  | FSurgeQueueLength => option_map Scalar (surgeQueueLength reg !! snd key)
  | FUnhealthyHostCount => option_map Scalar (unhealthyHostCount reg !! snd key)
  end.

(** The value of a counter or gauge series; 0 before its first write. *)
Definition scalar_of (o : option sample) : Q :=
  match o with
  | Some (Scalar q) => q
  | _ => 0%Q
  end.

Definition observations_of (o : option sample) : list Q :=
  match o with
  | Some (Observations qs) => qs
  | _ => []
  end.

(** A sample written to a series of family [f]: added to a counter, set on
    a gauge, observed by a histogram. *)
Definition write (f : family) (v : Q) (old : option sample) : sample :=
  if is_counter f then Scalar (scalar_of old + v)%Q
  else if is_gauge f then Scalar v
  else Observations (observations_of old ++ [v]).

(** The family that the catalog entry of a CloudWatch metric writes to, and
    the label values its closure puts before the name of the ELB. *)
Definition entry_series (metricName : string) : option (family * list string) :=
  if String.eqb metricName "HTTPCode_Backend_2XX" then Some (FHttpRequestsTotal, ["2XX"])
  else if String.eqb metricName "HTTPCode_Backend_3XX" then Some (FHttpRequestsTotal, ["3XX"])
  else if String.eqb metricName "HTTPCode_Backend_4XX" then Some (FHttpRequestsTotal, ["4XX"])
  else if String.eqb metricName "HTTPCode_Backend_5XX" then Some (FHttpRequestsTotal, ["5XX"])
  else if String.eqb metricName "HTTPCode_ELB_4XX" then Some (FHttpRequestsTotal, ["ELB_4XX"])
  else if String.eqb metricName "HTTPCode_ELB_5XX" then Some (FHttpRequestsTotal, ["ELB_5XX"])
  else if String.eqb metricName "BackendConnectionErrors" then Some (FBackendConnectionsErrors, [])
  else if String.eqb metricName "HealthyHostCount" then Some (FHealthyHostCount, [])
  else if String.eqb metricName "Latency" then Some (FElbLatency, [])
  else if String.eqb metricName "RequestCount" then Some (FRequestCount, [])
  else if String.eqb metricName "SpilloverCount" then Some (FSpilloverCount, [])
  else if String.eqb metricName "SurgeQueueLength" then Some (FSurgeQueueLength, [])
  else if String.eqb metricName "UnHealthyHostCount" then Some (FUnhealthyHostCount, [])
  else None.

(** The name of the ELB of a service, resolved from its hostname. *)
Definition service_elbName (s : api_Service) : option string :=
  match service_hostname s with
  | Some h =>
      match elbNameFromElbDNS h with
      | Ok elbName => Some elbName
      | _ => None
      end
  | None => None
  end.

(** The label values [elb_name], [svc_name], [namespace] of a service. *)
Definition service_labels (s : api_Service) : option (list string) :=
  match service_elbName s, Metadata s with
  | Some elbName, Some md =>
      match Name md, Namespace md with
      | Some svcName, Some ns => Some [elbName; svcName; ns]
      | _, _ => None
      end
  | _, _ => None
  end.

(** The series a task writes to. *)
Definition task_series (t : task) : option (family * list string) :=
  match entry_series (MetricName (fst t)), service_labels (snd t) with
  | Some (f, pre), Some labels => Some (f, pre ++ labels)
  | _, _ => None
  end.

(** The sample a task writes. *)
Definition task_value (w : World) (t : task) : option Q :=
  match service_elbName (snd t) with
  | Some elbName =>
      match getElbMetric w elbName (MetricName (fst t)) (Statistic (fst t)) with
      | Ok (Some v) => Some v
      | _ => None
      end
  | None => None
  end.

(** No counter series disappears or decreases from [reg] to [reg']. *)
Definition counters_le (reg reg' : Registry) : Prop :=
  forall (f : family) (lvs : list string) (x : Q),
    is_counter f = true ->
    series (f, lvs) reg = Some (Scalar x) ->
    exists y, series (f, lvs) reg' = Some (Scalar y) /\ (x <= y)%Q.

(** In the cycle [c] the service labelled [labels] is discovered, the
    discovered services have distinct labels, and CloudWatch answers
    [stat] for the statistic [statistic] of [metricName] of its ELB. *)
Definition cycle_fetches (labels : list string) (metricName statistic : string)
    (c : Cycle) (stat : Q) : Prop :=
  exists services s0 elbName,
    getAllServices (cy_world c) = Ok services /\
    NoDup (map service_labels services) /\
    In s0 services /\ service_labels s0 = Some labels /\
    service_elbName s0 = Some elbName /\
    getElbMetric (cy_world c) elbName metricName statistic = Ok (Some stat).

(** The cycle [c] discovers no service labelled [labels]. *)
Definition cycle_misses (labels : list string) (c : Cycle) : Prop :=
  exists services,
    getAllServices (cy_world c) = Ok services /\
    forall s, In s services -> service_labels s <> Some labels.

(** The services that the cycle [c] discovers have distinct labels. *)
Definition distinct_labels (c : Cycle) : Prop :=
  forall services,
    getAllServices (cy_world c) = Ok services -> NoDup (map service_labels services).

(** The CloudWatch metric whose average a gauge vector receives. *)
Definition gauge_metric (f : family) : string :=
  match f with
  | FHealthyHostCount => "HealthyHostCount"
  | FUnhealthyHostCount => "UnHealthyHostCount"
  | _ => ""
  end.

(** The words of the spec on gauges, read for every label tuple: each gauge
    series of the registry holds the average that the most recent cycle [c]
    fetched for its labels. *)
Definition spec_gauges_latest (c : Cycle) (reg : Registry) : Prop :=
  forall (f : family) (labels : list string) (x : Q),
    is_gauge f = true ->
    series (f, labels) reg = Some (Scalar x) ->
    cycle_fetches labels (gauge_metric f) "Average" c x.

(** What one vector operation does to the series of the registry: the
    series [key] receives [write], every other series is untouched. *)
Definition writes_series (key : family * list string) (v : Q) (reg reg' : Registry) : Prop :=
  series key reg' = Some (write (fst key) v (series key reg)) /\
  forall key', key' <> key -> series key' reg' = series key' reg.

(** ** Sample worlds

    Concrete services and worlds on which the theorems are instantiated. *)

Definition demo_hostname : string :=
  "internal-a8280213c611d114o7340onc0d34252-152337689.us-east-1.elb.amazonaws.com".

Definition demo_service_at (ingress : list (option LoadBalancerIngress)) : api_Service :=
  {| Metadata := Some {| Name := Some "web"; Namespace := Some "default" |};
     Spec := Some {| Type_ := Some "LoadBalancer" |};
     Status := Some {| LoadBalancer := Some {| Ingress := ingress |} |} |}.

(** A service of type LoadBalancer with an ELB hostname. *)
Definition demo_service : api_Service :=
  demo_service_at [Some {| Ip := None; Hostname := Some demo_hostname |}].

(** The same service before its load balancer is provisioned. *)
Definition pending_service : api_Service := demo_service_at [].

(** The same service with a hostname without a numeric group. *)
Definition foreign_service : api_Service :=
  demo_service_at [Some {| Ip := None; Hostname := Some "lb-12345.example.com" |}].

(** A service that is not load-balanced. *)
Definition cluster_service : api_Service :=
  {| Metadata := Some {| Name := Some "db"; Namespace := Some "default" |};
     Spec := Some {| Type_ := Some "ClusterIP" |};
     Status := Some {| LoadBalancer := Some {| Ingress := [] |} |} |}.

Definition demo_labels : list string :=
  ["a8280213c611d114o7340onc0d34252"; "web"; "default"].

Definition demo_namespaces : NamespaceList :=
  {| ns_Items := [Some {| ns_Metadata := Some {| Name := Some "default"; Namespace := None |} |}] |}.

(** A client of a cluster with the namespace [default] and the given
    services in it. *)
Definition demo_client (items : list (option api_Service)) : k8s_Client :=
  {| ListNamespaces := (Some demo_namespaces, None);
     ListServices := fun _ => (Some {| svc_Items := items |}, None) |}.

(** A client whose listing of the namespaces fails. *)
Definition unreachable_client : k8s_Client :=
  {| ListNamespaces := (None, Some "connection refused");
     ListServices := fun _ => (None, Some "connection refused") |}.

(** A world in which the kubeconfig loads into [client] and CloudWatch
    answers every request with [datapoints]. *)
Definition demo_world_with (client : k8s_Client) (datapoints : list (option Datapoint)) : World :=
  {| os_Getenv := fun _ => "";
     ioutil_ReadFile := fun _ => ("kubeconfig", None);
     yaml_Unmarshal := fun data => ({| config_data := data |}, None);
     k8s_NewClient := fun _ _ => (Some client, None);
     cw_GetMetricStatistics := fun _ => (Some {| Datapoints := datapoints |}, None);
     time_Now := 1000 * time_Minute |}.

(** A world with [demo_service] and [cluster_service] in which every
    statistic of the last minute is [stat]. *)
Definition demo_world (stat : Q) : World :=
  demo_world_with (demo_client [Some cluster_service; Some demo_service])
    [Some {| Sum := Some stat; Average := Some stat; Maximum := Some stat; Minimum := Some stat |}].

(** A cycle in [demo_world] that takes [elapsed] nanoseconds under the
    sequential schedule of its thirteen goroutines. *)
Definition demo_cycle (stat : Q) (elapsed : Z) : Cycle :=
  {| cy_world := demo_world stat; cy_schedule := sequential 13; cy_elapsed := elapsed |}.

(** A cycle in a cluster that has lost its load-balanced service. *)
Definition gone_cycle : Cycle :=
  {| cy_world := demo_world_with (demo_client [Some cluster_service]) [];
     cy_schedule := [ActWait];
     cy_elapsed := 0 |}.

(** ** Further words for the properties of the second part *)

(** The path that [loadClient] reads: the value of URD_KUBECONFIG_PATH when
    it is set and not empty, the default otherwise. *)
Definition kubeconfigPath (w : World) : string :=
  if String.eqb (os_Getenv w "URD_KUBECONFIG_PATH") "" then "/srv/kubernetes/kubeconfig"
  else os_Getenv w "URD_KUBECONFIG_PATH".

(** The field of a datapoint that the [switch] of [getElbMetric] selects;
    nil for any other name of a statistic. *)
Definition statistic_of (statisticType : string) (dp : Datapoint) : option Q :=
  if String.eqb statisticType "Sum" then Sum dp
  else if String.eqb statisticType "Average" then Average dp
  else if String.eqb statisticType "Maximum" then Maximum dp
  else if String.eqb statisticType "Minimum" then Minimum dp
  else None.

(** What a task needs in order not to fault: the labels of its service
    resolve, CloudWatch yields a sample, and the sample is not negative when
    the entry adds it to a counter. *)
Definition task_ok (w : World) (t : task) : Prop :=
  exists key v,
    task_series t = Some key /\ task_value w t = Some v /\
    (is_counter (fst key) = true -> (0 <= v)%Q).

(** The CloudWatch metric behind a value of the label [status]. *)
Definition http_metric (status : string) : string :=
  if Strings.HasPrefix status "ELB_" then "HTTPCode_" +:+ status
  else "HTTPCode_Backend_" +:+ status.

Definition http_statuses : list string := ["2XX"; "3XX"; "4XX"; "5XX"; "ELB_4XX"; "ELB_5XX"].

(** A world like [demo_world] in which every CloudWatch call fails. *)
Definition throttled_world : World :=
  {| os_Getenv := fun _ => "";
     ioutil_ReadFile := fun _ => ("kubeconfig", None);
     yaml_Unmarshal := fun data => ({| config_data := data |}, None);
     k8s_NewClient := fun _ _ => (Some (demo_client [Some demo_service]), None);
     cw_GetMetricStatistics := fun _ => (None, Some "Throttling: Rate exceeded");
     time_Now := 1000 * time_Minute |}.

(** A world whose kubeconfig is found only at the path given by the
    environment; it holds [contents]. *)
Definition env_world (contents : string) (parse_error : option error) : World :=
  {| os_Getenv := fun name => if String.eqb name "URD_KUBECONFIG_PATH" then "/tmp/kubeconfig" else "";
     ioutil_ReadFile := fun path =>
       if String.eqb path "/tmp/kubeconfig" then (contents, None)
       else ("", Some ("open " +:+ path +:+ ": no such file or directory"));
     yaml_Unmarshal := fun data => ({| config_data := data |}, parse_error);
     k8s_NewClient := fun _ _ => (Some (demo_client [Some demo_service]), None);
     cw_GetMetricStatistics := fun _ => (Some {| Datapoints := [] |}, None);
     time_Now := 1000 * time_Minute |}.

(** A client of a cluster with the namespaces [default] and [kube-system];
    the listing of the services of the second one fails. *)
Definition half_listing_client : k8s_Client :=
  {| ListNamespaces :=
       (Some {| ns_Items :=
                  [Some {| ns_Metadata := Some {| Name := Some "default"; Namespace := None |} |};
                   Some {| ns_Metadata := Some {| Name := Some "kube-system"; Namespace := None |} |}] |},
        None);
     ListServices := fun name =>
       if String.eqb name "default" then (Some {| svc_Items := [Some demo_service] |}, None)
       else (None, Some "services is forbidden") |}.

(** The entry of the catalog for a CloudWatch metric. *)
Definition catalog_entry_named (name : string) : option elbMetric :=
  List.find (fun m => String.eqb (MetricName m) name) metrics.

(** The schedule that starts every goroutine and then runs them from the
    last one started to the first. *)
Definition reversed (n : nat) : list action :=
  repeat ActGo n ++ map ActBody (rev (seq 0 n)) ++ repeat ActDone n ++ [ActWait].

(** [collectMetrics] returns under the schedule. *)
Definition returns (w : World) (sched : list action) (st : cycle_state) : bool :=
  match run w sched st with
  | Some st' => c_returned st'
  | None => false
  end.

(** Time that the loop of [main] does not measure: [d] nanoseconds pass
    between the second [time.Now()] of an iteration plus the sleep it asks
    for and the first [time.Now()] of the next iteration (a sleep that
    returns late, the statements around it). *)
Definition late (d : Z) (st : main_state) : main_state :=
  {| m_clock := (m_clock st + d)%Z; m_reg := m_reg st;
     m_begins := m_begins st; m_slept := m_slept st |}.

(** The first iterations of the loop, each followed by its lateness. *)
Fixpoint main_loop_late (cs : list (Cycle * Z)) (st : main_state) : option main_state :=
  match cs with
  | [] => Some st
  | (c, d) :: cs' =>
      match main_iteration c st with
      | Some st' => main_loop_late cs' (late d st')
      | None => None
      end
  end.

(** The instants at which cycles begin that start at [clock] and follow
    each other one period and the lateness of the iteration apart. *)
Fixpoint late_begins (clock : Z) (ds : list Z) : list Z :=
  match ds with
  | [] => []
  | d :: ds' => clock :: late_begins (clock + time_Minute + d) ds'
  end.

(** A world like [demo_world] in which CloudWatch fails the requests for
    one metric and answers [stat] to all the others. *)
Definition flaky_world (metricName : string) (stat : Q) : World :=
  {| os_Getenv := fun _ => "";
     ioutil_ReadFile := fun _ => ("kubeconfig", None);
     yaml_Unmarshal := fun data => ({| config_data := data |}, None);
     k8s_NewClient := fun _ _ => (Some (demo_client [Some demo_service]), None);
     cw_GetMetricStatistics := fun input =>
       if String.eqb (in_MetricName input) metricName
       then (None, Some "Throttling: Rate exceeded")
       else (Some {| Datapoints :=
                       [Some {| Sum := Some stat; Average := Some stat;
                                Maximum := Some stat; Minimum := Some stat |}] |}, None);
     time_Now := 1000 * time_Minute |}.
(** * Properties *)

Import Strings.

(** ** The result monad *)

Lemma rbind_ok_inv {A B} (r : result A) (f : A -> result B) (b : B) :
  rbind r f = Ok b -> exists a, r = Ok a /\ f a = Ok b.
Proof. destruct r; simpl; intros H; try discriminate. eauto. Qed.

Lemma is_ok_inv {A} (r : result A) : is_ok r = true -> exists a, r = Ok a.
Proof. destruct r; simpl; intros H; try discriminate. eauto. Qed.

Lemma is_some_inv {A} (o : option A) : is_some o = true -> exists a, o = Some a.
Proof. destruct o; simpl; intros H; try discriminate. eauto. Qed.

Lemma deref_ok_inv {A} (p : option A) (a : A) : deref p = Ok a -> p = Some a.
Proof. destruct p; simpl; intros H; congruence. Qed.

Lemma strip_app (p s : string) : strip p (p +:+ s) = Some s.
Proof.
  induction p as [|c p IH]; simpl; [reflexivity|].
  rewrite Ascii.eqb_refl. exact IH.
Qed.

Lemma TrimPrefix_app (p s : string) : TrimPrefix (p +:+ s) p = s.
Proof. unfold TrimPrefix. now rewrite strip_app. Qed.

Lemma TrimPrefix_none (p s : string) : HasPrefix s p = false -> TrimPrefix s p = s.
Proof. unfold HasPrefix, TrimPrefix. destruct (strip p s); [discriminate|reflexivity]. Qed.

Example elbName_comment_example :
  elbNameFromElbDNS
    "internal-a8280213c611d114o7340onc0d34252-152337689.us-east-1.elb.amazonaws.com"
  = Ok "a8280213c611d114o7340onc0d34252".
Proof. vm_compute. reflexivity. Qed.

Lemma rep_digits (n : nat) (s : string) (cs : caps) (k : cont) :
  rep_loop (rmatch (Range "0"%char "9"%char)) n s cs k =
  match skip_digits n s with Some s' => k s' cs | None => None end.
Proof.
  revert s; induction n as [|n IH]; intros s; simpl; [reflexivity|].
  destruct s as [|c s]; [reflexivity|].
  destruct (in_range "0" "9" c); [apply IH|reflexivity].
Qed.

Lemma rmatch_group (s : string) (cs : caps) (k : cont) :
  rmatch (NonCapture (Cat (Lit "-"%char) (Rep 6 (Range "0"%char "9"%char)))) s cs k =
  match group_rest s with Some s' => k s' cs | None => None end.
Proof.
  cbn [rmatch]. destruct s as [|c s]; [reflexivity|].
  cbn [group_rest]. destruct (Ascii.eqb "-" c); [apply rep_digits|reflexivity].
Qed.

Lemma star_any_greedy (fuel : nat) (s : string) (cs : caps) (k : cont) :
  (String.length s < fuel)%nat ->
  star_loop (rmatch AnyNotNL) fuel s cs k = greedy_any s cs k.
Proof.
  revert s; induction fuel as [|fuel IH]; intros s Hlen; [lia|].
  destruct s as [|c s]; [reflexivity|].
  cbn [star_loop rmatch greedy_any].
  destruct (Ascii.eqb c newline); [reflexivity|].
  assert (Hlt : (String.length s <? String.length (String c s))%nat = true)
    by (apply Nat.ltb_lt; simpl; lia).
  rewrite Hlt, IH by (simpl in Hlen; lia). reflexivity.
Qed.

Lemma rmatch_elbDNS_re (s : string) :
  rmatch elbDNS_re s [] (fun s' cs => Some (s', cs)) = greedy_any s [] (after_name s).
Proof.
  unfold elbDNS_re. cbn [rmatch].
  rewrite star_any_greedy by lia. reflexivity.
Qed.

Lemma after_name_eq (s0 s : string) (cs : caps) :
  after_name s0 s cs =
  match group_rest s with
  | Some s' => Some (s', (1%nat, consumed s0 s) :: cs)
  | None => None
  end.
Proof. unfold after_name. now rewrite rmatch_group. Qed.

Lemma has_group_head (s : string) : has_group s = false -> group_rest s = None.
Proof.
  destruct s as [|c s]; [reflexivity|].
  cbn [has_group]. unfold starts_group. intros H.
  apply orb_false_elim in H as [H _].
  destruct (group_rest (String c s)); [discriminate|reflexivity].
Qed.

Lemma has_group_tail (c : ascii) (s : string) :
  has_group (String c s) = false -> has_group s = false.
Proof. cbn [has_group]. intros H. now apply orb_false_elim in H as [_ H]. Qed.

Lemma greedy_no_group (s0 s : string) (cs : caps) :
  has_group s = false -> greedy_any s cs (after_name s0) = None.
Proof.
  induction s as [|c s IH]; intros H.
  - simpl. rewrite after_name_eq. reflexivity.
  - cbn [greedy_any]. rewrite after_name_eq, (has_group_head _ H).
    rewrite (IH (has_group_tail _ _ H)). now destruct (Ascii.eqb c newline).
Qed.

Lemma match_here_no_group (s : string) :
  has_group s = false -> match_here elbDNS_re s = None.
Proof.
  intros H. unfold match_here.
  now rewrite rmatch_elbDNS_re, greedy_no_group.
Qed.

Lemma find_no_group (s : string) :
  has_group s = false -> FindStringSubmatch elbDNS_re s = None.
Proof.
  induction s as [|c s IH]; intros H.
  - reflexivity.
  - cbn [FindStringSubmatch]. rewrite (match_here_no_group _ H).
    apply IH, (has_group_tail _ _ H).
Qed.

Lemma group_rest_dash (t t' : string) :
  group_rest t = Some t' -> exists t1, t = String "-"%char t1.
Proof.
  destruct t as [|c t1]; cbn [group_rest]; [discriminate|].
  destruct (Ascii.eqb_spec "-"%char c) as [<-|]; [eauto|discriminate].
Qed.

Lemma greedy_last_group (s0 a t t' : string) (cs : caps) :
  newline_free a = true ->
  group_rest t = Some t' ->
  has_group (string_tail t) = false ->
  greedy_any (a +:+ t) cs (after_name s0) = Some (t', (1%nat, consumed s0 t) :: cs).
Proof.
  intros Ha Ht Hlast. induction a as [|c a IH].
  - destruct (group_rest_dash _ _ Ht) as [t1 ->].
    change ("" +:+ String "-" t1) with (String "-"%char t1).
    cbn [greedy_any string_tail] in *.
    change (Ascii.eqb "-"%char newline) with false. cbv iota.
    rewrite (greedy_no_group _ _ _ Hlast), after_name_eq, Ht. reflexivity.
  - simpl in Ha. apply andb_prop in Ha as [Hc Ha].
    change (String c a +:+ t) with (String c (a +:+ t)).
    cbn [greedy_any].
    apply negb_true_iff in Hc. rewrite Hc, (IH Ha). reflexivity.
Qed.

Lemma length_append (a t : string) :
  String.length (a +:+ t) = (String.length a + String.length t)%nat.
Proof. induction a as [|c a IH]; simpl; [reflexivity|now rewrite IH]. Qed.

Lemma consumed_append (a t : string) : consumed (a +:+ t) t = a.
Proof.
  unfold consumed. rewrite length_append.
  replace (String.length a + String.length t - String.length t)%nat
    with (String.length a) by lia.
  induction a as [|c a IH]; simpl.
  - now destruct t.
  - now rewrite IH.
Qed.

Lemma find_last_group (a t : string) :
  newline_free a = true ->
  starts_group t = true ->
  has_group (string_tail t) = false ->
  exists whole, FindStringSubmatch elbDNS_re (a +:+ t) = Some [whole; a].
Proof.
  intros Ha Ht Hlast. unfold starts_group in Ht.
  destruct (group_rest t) as [t'|] eqn:Hrest; [|discriminate].
  exists (consumed (a +:+ t) t').
  assert (Hm : match_here elbDNS_re (a +:+ t) = Some [consumed (a +:+ t) t'; a]).
  { unfold match_here.
    rewrite rmatch_elbDNS_re, (greedy_last_group _ _ _ _ _ Ha Hrest Hlast).
    cbn. rewrite consumed_append. reflexivity. }
  destruct (a +:+ t); cbn [FindStringSubmatch]; now rewrite Hm.
Qed.

(** ** Name Resolver *)

Lemma elbName_no_group (h : string) :
  has_group h = false -> elbNameFromElbDNS h = Panic IndexOutOfRange.
Proof.
  intros H. unfold elbNameFromElbDNS. now rewrite (find_no_group _ H).
Qed.

Lemma elbName_last_group (a t : string) :
  newline_free a = true ->
  starts_group t = true ->
  has_group (string_tail t) = false ->
  elbNameFromElbDNS (a +:+ t) = Ok (TrimPrefix a "internal-").
Proof.
  intros Ha Ht Hlast. unfold elbNameFromElbDNS.
  destruct (find_last_group a t Ha Ht Hlast) as [whole ->]. reflexivity.
Qed.

(** C3, as amended.  When a numeric group (a dash and six digits) begins at
    the head of [t] and none begins later in [t], the Name Resolver maps the
    hostname [a ++ t] to [a] without its [internal-] prefix: the result
    extends to the last numeric group of the hostname, whatever groups occur
    in [a].  The prefix is removed once: from [internal-x] the result is [x],
    also when [x] starts with [internal-] again; without the prefix the
    result is [a] itself. *)
Theorem elbNameFromElbDNS_last_group (a t : string) :
  newline_free a = true ->
  starts_group t = true ->
  has_group (string_tail t) = false ->
  elbNameFromElbDNS (a +:+ t) = Ok (TrimPrefix a "internal-") /\
  (forall x, a = "internal-" +:+ x -> TrimPrefix a "internal-" = x) /\
  (HasPrefix a "internal-" = false -> TrimPrefix a "internal-" = a).
Proof.
  intros Ha Ht Hlast. split; [|split].
  - now apply elbName_last_group.
  - intros x ->. apply TrimPrefix_app.
  - apply TrimPrefix_none.
Qed.

(** The example of the source comment, through the theorem. *)
Lemma elbNameFromElbDNS_last_group_witness :
  elbNameFromElbDNS
    ("internal-a8280213c611d114o7340onc0d34252" +:+ "-152337689.us-east-1.elb.amazonaws.com")
  = Ok "a8280213c611d114o7340onc0d34252".
Proof.
  exact (proj1 (elbNameFromElbDNS_last_group
                  "internal-a8280213c611d114o7340onc0d34252"
                  "-152337689.us-east-1.elb.amazonaws.com"
                  eq_refl eq_refl eq_refl)).
Defined.

(** C3, as the spec states it, fails: this hostname has the expected shape
    (prefix [internal-], a 32-character identifier, a dash, nine digits, a
    domain), the text before its first numeric group is [my-service], and
    the Name Resolver returns the whole identifier. *)
Lemma elbName_first_group_counterexample :
  let h := "internal-my-service-123456-production-elb-152337689.us-east-1.elb.amazonaws.com" in
  expected_pattern h /\
  spec_elbName h = Some "my-service" /\
  elbNameFromElbDNS h = Ok "my-service-123456-production-elb" /\
  elbNameFromElbDNS h <> Ok "my-service".
Proof.
  cbv zeta. split; [|split; [|split]].
  - exists "internal-", "my-service-123456-production-elb", "152337689",
      ".us-east-1.elb.amazonaws.com".
    repeat split; try reflexivity.
    + now right.
    + discriminate.
    + simpl. lia.
  - vm_compute. reflexivity.
  - vm_compute. reflexivity.
  - vm_compute. discriminate.
Qed.

(** A string that is no hostname at all is resolved as soon as a numeric
    group occurs in it. *)
Example elbName_any_group : elbNameFromElbDNS "x-123456" = Ok "x".
Proof. vm_compute. reflexivity. Qed.

(** With a single numeric group the first group is the last one, and the
    code agrees with the words of the spec. *)
Lemma before_first_group_single (a t : string) :
  starts_group t = true ->
  (forall a1 a2, a = a1 +:+ a2 -> starts_group (a2 +:+ t) = true -> a2 = "") ->
  before_first_group (a +:+ t) = Some a.
Proof.
  intros Ht. induction a as [|c a IH]; intros Hsingle.
  - change ("" +:+ t) with t. destruct t as [|c t]; [discriminate|].
    cbn [before_first_group]. now rewrite Ht.
  - change (String c a +:+ t) with (String c (a +:+ t)).
    cbn [before_first_group].
    destruct (starts_group (String c (a +:+ t))) eqn:Hs.
    + specialize (Hsingle "" (String c a) eq_refl Hs). discriminate.
    + rewrite IH; [reflexivity|].
      intros a1 a2 -> H2. apply (Hsingle (String c a1) a2); [reflexivity|exact H2].
Qed.

Lemma elbName_agrees_single_group (a t : string) :
  newline_free a = true ->
  starts_group t = true ->
  has_group (string_tail t) = false ->
  (forall a1 a2, a = a1 +:+ a2 -> starts_group (a2 +:+ t) = true -> a2 = "") ->
  spec_elbName (a +:+ t) = Some (TrimPrefix a "internal-") /\
  elbNameFromElbDNS (a +:+ t) = Ok (TrimPrefix a "internal-").
Proof.
  intros Ha Ht Hlast Hsingle. split.
  - unfold spec_elbName. now rewrite (before_first_group_single _ _ Ht Hsingle).
  - now apply elbName_last_group.
Qed.

(** ** Metric Fetcher *)

Lemma getElbMetric_request (w : World) (elbName metricName statisticType : string) :
  getElbMetric w elbName metricName statisticType =
  (let '(data, err) := cw_GetMetricStatistics w (trailing_minute w elbName metricName statisticType) in
   _ <~ fatal_on err ;;
   data <~ deref data ;;
   if (length (Datapoints data) =? 0)%nat then Ok (Some 0%Q)
   else
     dp <~ index (Datapoints data) 0 ;;
     if String.eqb statisticType "Sum" then dp <~ deref dp ;; Ok (Sum dp)
     else if String.eqb statisticType "Average" then dp <~ deref dp ;; Ok (Average dp)
     else if String.eqb statisticType "Maximum" then dp <~ deref dp ;; Ok (Maximum dp)
     else if String.eqb statisticType "Minimum" then dp <~ deref dp ;; Ok (Minimum dp)
     else Ok None).
Proof.
  unfold getElbMetric, trailing_minute.
  replace (time_Now w + -1 * time_Minute)%Z with (time_Now w - time_Minute)%Z by lia.
  reflexivity.
Qed.

Lemma trailing_minute_window (w : World) (elbName metricName statisticType : string) :
  let req := trailing_minute w elbName metricName statisticType in
  (EndTime req - StartTime req = 60 * 1000000000)%Z /\ EndTime req = time_Now w /\
  Statistics req = [statisticType].
Proof. unfold trailing_minute, time_Minute. simpl. repeat split; lia. Qed.

(** C6.  When CloudWatch answers the request for the trailing minute without
    an error and with no data point, the Metric Fetcher returns a pointer to
    the value 0: neither a nil pointer nor a fatal error nor a panic. *)
Theorem getElbMetric_no_datapoints
    (w : World) (elbName metricName statisticType : string)
    (out : GetMetricStatisticsOutput) :
  cw_GetMetricStatistics w (trailing_minute w elbName metricName statisticType)
    = (Some out, None) ->
  Datapoints out = [] ->
  getElbMetric w elbName metricName statisticType = Ok (Some 0%Q) /\
  (value <~ getElbMetric w elbName metricName statisticType ;; deref value) = Ok 0%Q.
Proof.
  intros Hcw Hnone. rewrite getElbMetric_request, Hcw. simpl. rewrite Hnone.
  split; reflexivity.
Qed.

(** ** Service Discovery *)

Lemma getAllServices_loadClient_error (w : World) (c : option k8s_Client) (e : error) :
  loadClient w = (c, Some e) -> getAllServices w = Fatal e.
Proof. intros H. unfold getAllServices. rewrite H. reflexivity. Qed.

Lemma range_namespaces_ListServices_error
    (client : k8s_Client) (ns : option api_Namespace) (name : string)
    (sl : option ServiceList) (e : error)
    (rest : list (option api_Namespace)) (acc : list api_Service) :
  namespace_name ns = Some name ->
  ListServices client name = (sl, Some e) ->
  range_namespaces client (ns :: rest) acc = Fatal e.
Proof.
  intros Hname Hlist. destruct ns as [[[[n ?]|]]|]; simpl in Hname; try discriminate.
  subst n. simpl. rewrite Hlist. reflexivity.
Qed.

(** C7, at the failing input.  When the client is loaded and the listing of
    the namespaces fails, returning no list and an error, [getAllServices]
    does not end with that error: the error is never read, and the process
    dies of the nil dereference of the list. *)
Theorem getAllServices_ListNamespaces_error (w : World) (client : k8s_Client) (e : error) :
  loadClient w = (Some client, None) ->
  ListNamespaces client = (None, Some e) ->
  getAllServices w = Panic NilDereference /\ getAllServices w <> Fatal e.
Proof.
  intros Hload Hlist. unfold getAllServices. rewrite Hload. simpl. rewrite Hlist.
  split; [reflexivity|discriminate].
Qed.

(** Were a list returned next to the error, discovery would go on with it. *)
Lemma getAllServices_ListNamespaces_error_ignored
    (w : World) (client : k8s_Client) (nsl : NamespaceList) (e : error) :
  loadClient w = (Some client, None) ->
  ListNamespaces client = (Some nsl, Some e) ->
  getAllServices w = range_namespaces client (ns_Items nsl) [].
Proof.
  intros Hload Hlist. unfold getAllServices. rewrite Hload. simpl. rewrite Hlist. simpl.
  now destruct (range_namespaces client (ns_Items nsl) []).
Qed.

Lemma range_services_complete (items : list (option api_Service)) (acc : list api_Service) :
  Forall complete_service items ->
  range_services items acc = Ok (acc ++ load_balanced items).
Proof.
  intros Hall. revert acc. induction Hall as [|item items [s [-> Hty]] _ IH]; intros acc.
  - simpl. now rewrite app_nil_r.
  - unfold service_type in Hty. cbn [range_services load_balanced deref rbind].
    unfold is_LoadBalancer, service_type.
    destruct (Spec s) as [spec|]; [|congruence]. cbn [deref rbind].
    destruct (Type_ spec) as [ty|]; [|congruence].
    cbn [deref rbind]. destruct (String.eqb ty "LoadBalancer").
    + rewrite IH, <- app_assoc. reflexivity.
    + apply IH.
Qed.

Lemma range_namespaces_complete
    (client : k8s_Client) (nss : list (option api_Namespace)) (acc : list api_Service) :
  Forall (complete_listing client) nss ->
  range_namespaces client nss acc = Ok (acc ++ all_load_balanced client nss).
Proof.
  intros Hall. revert acc. induction Hall as [|ns nss [items [Hitems Hcomplete]] _ IH]; intros acc.
  - simpl. now rewrite app_nil_r.
  - unfold all_load_balanced. cbn [flat_map]. rewrite Hitems.
    unfold listed_services in Hitems.
    destruct (namespace_name ns) as [name|] eqn:Hname; [|discriminate].
    destruct ns as [[[[n ?]|]]|]; simpl in Hname; try discriminate. subst n.
    cbn [range_namespaces deref rbind ns_Metadata Name].
    destruct (ListServices client name) as [[sl|] [e|]]; try discriminate.
    injection Hitems as <-.
    cbn [fatal_on deref rbind]. rewrite (range_services_complete _ _ Hcomplete).
    cbn [rbind]. rewrite IH, <- app_assoc. reflexivity.
Qed.

Lemma In_load_balanced (items : list (option api_Service)) (s : api_Service) :
  In s (load_balanced items) <-> In (Some s) items /\ is_LoadBalancer s = true.
Proof.
  induction items as [|[s'|] items IH]; simpl.
  - tauto.
  - destruct (is_LoadBalancer s') eqn:Hlb; simpl; rewrite IH; split.
    + intros [->|[? ?]]; auto.
    + intros [[[= ->]|?] ?]; auto.
    + intros [? ?]; auto.
    + intros [[[= ->]|?] ?]; [congruence|auto].
  - rewrite IH. split; [intros [? ?]; auto|intros [[?|?] ?]; [discriminate|auto]].
Qed.

Lemma is_LoadBalancer_type (s : api_Service) :
  is_LoadBalancer s = true <-> service_type s = Some "LoadBalancer".
Proof.
  unfold is_LoadBalancer. destruct (service_type s) as [ty|]; [|split; discriminate].
  rewrite String.eqb_eq. split; congruence.
Qed.

(** C8.  When the client is loaded, the listing of the namespaces succeeds
    and so does the listing of the services of every namespace (each listed
    service declaring its type), [getAllServices] returns exactly the
    services of type LoadBalancer of all the namespaces: every such service
    is returned and nothing else is. *)
Theorem getAllServices_load_balanced
    (w : World) (client : k8s_Client) (nsl : NamespaceList) :
  loadClient w = (Some client, None) ->
  ListNamespaces client = (Some nsl, None) ->
  Forall (complete_listing client) (ns_Items nsl) ->
  getAllServices w = Ok (all_load_balanced client (ns_Items nsl)) /\
  forall s : api_Service,
    In s (all_load_balanced client (ns_Items nsl)) <->
    exists ns items,
      In ns (ns_Items nsl) /\ listed_services client ns = Some items /\
      In (Some s) items /\ service_type s = Some "LoadBalancer".
Proof.
  intros Hload Hlist Hall. split.
  - unfold getAllServices. rewrite Hload. simpl. rewrite Hlist. simpl.
    now rewrite (range_namespaces_complete _ _ _ Hall).
  - intros s. unfold all_load_balanced. rewrite in_flat_map. split.
    + intros [ns [Hns Hin]].
      destruct (listed_services client ns) as [items|] eqn:Hitems; [|contradiction].
      apply In_load_balanced in Hin as [Hin Hlb].
      exists ns, items. rewrite <- is_LoadBalancer_type. auto.
    + intros [ns [items [Hns [Hitems [Hin Hlb]]]]].
      exists ns. split; [exact Hns|]. rewrite Hitems.
      apply In_load_balanced. rewrite is_LoadBalancer_type. auto.
Qed.

(** ** Collection Cycle: the fan-out and the barrier *)

Lemma fanout_cons (s : api_Service) (services : list api_Service) :
  fanout (s :: services) = map (fun metric => (metric, s)) metrics ++ fanout services.
Proof. reflexivity. Qed.

Lemma length_fanout (services : list api_Service) :
  length (fanout services) = (length services * length metrics)%nat.
Proof.
  induction services as [|s services IH]; [reflexivity|].
  rewrite fanout_cons, length_app, length_map, IH. simpl. lia.
Qed.

Lemma in_fanout (services : list api_Service) (m : elbMetric) (s : api_Service) :
  In (m, s) (fanout services) <-> In m metrics /\ In s services.
Proof.
  unfold fanout. rewrite in_flat_map. split.
  - intros [s' [Hs Hin]]. apply in_map_iff in Hin as [m' [[= -> ->] Hm]]. auto.
  - intros [Hm Hs]. exists s. split; [exact Hs|]. apply in_map_iff. eauto.
Qed.

Lemma run_bodies_snoc (w : World) (ts : list task) (t : task) (reg : Registry) :
  run_bodies w (ts ++ [t]) reg =
  (reg' <~ run_bodies w ts reg ;; getMetric w (fst t) (snd t) reg').
Proof.
  revert reg. induction ts as [|[m s] ts IH]; intros reg.
  - destruct t as [m s]. simpl. now destruct (getMetric w m s reg).
  - cbn [app run_bodies]. destruct (getMetric w m s reg); simpl; [apply IH|reflexivity..].
Qed.

Ltac cycle_fields :=
  cbn [c_todo c_started c_ran c_exited c_wg c_reg c_dead c_returned kill cycle_start].

Lemma cycle_inv_start (w : World) (reg : Registry) (services : list api_Service) :
  cycle_inv w reg services (cycle_start reg services).
Proof.
  unfold cycle_inv; cycle_fields. repeat split; try discriminate.
  - exists []. split; [reflexivity|constructor].
  - rewrite length_fanout. lia.
  - simpl. lia.
Qed.

Lemma cycle_inv_kill (w : World) (reg0 : Registry) (services : list api_Service)
    (d : death) (st : cycle_state) :
  c_returned st = false ->
  cycle_inv w reg0 services st -> cycle_inv w reg0 services (kill d st).
Proof.
  intros Hret (H1 & H2 & H3 & H4 & H5). unfold cycle_inv; cycle_fields.
  repeat split; try assumption; congruence.
Qed.

Lemma cycle_inv_step (w : World) (reg0 : Registry) (services : list api_Service)
    (a : action) (st st' : cycle_state) :
  cycle_inv w reg0 services st ->
  step w a st = Some st' ->
  cycle_inv w reg0 services st'.
Proof.
  intros Hinv Hstep. unfold step in Hstep.
  destruct (c_dead st) eqn:Hdead; [discriminate|].
  destruct (c_returned st) eqn:Hret; [discriminate|].
  pose proof Hinv as ((issued & Hissued & Hperm) & Hwg & Hex & Hreg & _).
  destruct a as [|i| |].
  - (* go *)
    destruct (c_todo st) as [|t todo] eqn:Htodo; [discriminate|].
    injection Hstep as <-. unfold cycle_inv; cycle_fields. repeat split; try assumption; try discriminate.
    exists (issued ++ [t]). split.
    + now rewrite <- app_assoc.
    + rewrite app_assoc. now apply Permutation_app_tail.
  - (* body *)
    destruct (c_started st !! i) as [[m s]|] eqn:Hi; [|discriminate].
    destruct (getMetric w m s (c_reg st)) as [reg'|err|e] eqn:Hbody;
      injection Hstep as <-; try (now apply cycle_inv_kill).
    unfold cycle_inv; cycle_fields. repeat split; try assumption; try discriminate.
    + exists issued. split; [assumption|].
      etransitivity; [|exact Hperm].
      rewrite <- app_assoc. apply Permutation_app_head. simpl.
      rewrite delete_take_drop.
      etransitivity; [apply Permutation_middle|].
      now rewrite (take_drop_middle _ _ _ Hi).
    + rewrite length_app. simpl. lia.
    + rewrite run_bodies_snoc, Hreg. simpl. exact Hbody.
  - (* done *)
    destruct (c_exited st <? length (c_ran st))%nat eqn:Hlt; [|discriminate].
    apply Nat.ltb_lt in Hlt.
    destruct (c_wg st - 1 <? 0)%Z eqn:Hneg;
      injection Hstep as <-; [now apply cycle_inv_kill|].
    unfold cycle_inv; cycle_fields.
    repeat split; try assumption; try discriminate; try lia.
    exists issued. auto.
  - (* wait *)
    destruct (c_todo st) as [|t todo] eqn:Htodo; [|discriminate].
    destruct (c_wg st =? 0)%Z eqn:Hzero; [|discriminate].
    apply Z.eqb_eq in Hzero.
    injection Hstep as <-. unfold cycle_inv; cycle_fields. repeat split; try assumption.
    exists issued. auto.
Qed.

Lemma cycle_inv_run (w : World) (reg0 : Registry) (services : list api_Service)
    (sched : list action) (st st' : cycle_state) :
  cycle_inv w reg0 services st ->
  run w sched st = Some st' ->
  cycle_inv w reg0 services st'.
Proof.
  revert st. induction sched as [|a sched IH]; intros st Hinv Hrun; simpl in Hrun.
  - now injection Hrun as <-.
  - destruct (step w a st) as [st1|] eqn:Hstep; [|discriminate].
    eapply IH; [|exact Hrun]. eapply cycle_inv_step; eassumption.
Qed.

Lemma cycle_inv_returned (w : World) (reg0 : Registry) (services : list api_Service)
    (st : cycle_state) :
  cycle_inv w reg0 services st ->
  c_returned st = true ->
  Permutation (c_ran st) (fanout services) /\ c_started st = [] /\ c_todo st = [] /\
  c_exited st = length (fanout services) /\ c_dead st = None /\
  run_bodies w (c_ran st) reg0 = Ok (c_reg st).
Proof.
  intros ((issued & Hissued & Hperm) & Hwg & Hex & Hreg & Hret) Hreturned.
  destruct (Hret Hreturned) as (Htodo & Hzero & Hdead).
  rewrite Htodo, app_nil_r in Hissued. subst issued.
  pose proof (Permutation_length Hperm) as Hlen. rewrite length_app in Hlen.
  assert (Hstarted : c_started st = []).
  { destruct (c_started st); [reflexivity|]. simpl in Hlen. lia. }
  rewrite Hstarted, app_nil_r in Hperm.
  repeat split; try assumption. lia.
Qed.

(** C1.  In every state that a cycle over [services] can reach, under any
    schedule of its goroutines: the goroutines started so far are at most
    S×K; and when [wg.Wait] has returned, the goroutines whose body has run
    are exactly the S×K pairs of the fan-out (each pair of a service and a
    catalog entry once), none is still running, all S×K have called
    [wg.Done], and the process has not died. *)
Theorem collectMetrics_barrier
    (w : World) (reg : Registry) (services : list api_Service)
    (sched : list action) (st : cycle_state) :
  run w sched (cycle_start reg services) = Some st ->
  (length (c_ran st ++ c_started st) <= length services * length metrics)%nat /\
  (c_returned st = true ->
   Permutation (c_ran st) (fanout services) /\
   length (c_ran st) = (length services * length metrics)%nat /\
   c_started st = [] /\ c_todo st = [] /\
   c_exited st = (length services * length metrics)%nat /\
   c_dead st = None).
Proof.
  intros Hrun.
  pose proof (cycle_inv_run _ _ _ _ _ _ (cycle_inv_start w reg services) Hrun) as Hinv.
  split.
  - destruct Hinv as ((issued & Hissued & Hperm) & _).
    rewrite (Permutation_length Hperm), <- length_fanout, <- Hissued, length_app. lia.
  - intros Hret.
    destruct (cycle_inv_returned _ _ _ _ Hinv Hret) as (Hperm & Hs & Ht & He & Hd & _).
    rewrite <- length_fanout. repeat split; try assumption.
    apply Permutation_length, Hperm.
Qed.

Lemma run_bodies_ok_In (w : World) (ts : list task) (reg reg' : Registry) (t : task) :
  run_bodies w ts reg = Ok reg' ->
  In t ts ->
  exists r r', getMetric w (fst t) (snd t) r = Ok r'.
Proof.
  revert reg. induction ts as [|[m s] ts IH]; intros reg Hrun Hin; [contradiction|].
  cbn [run_bodies] in Hrun. apply rbind_ok_inv in Hrun as [r1 [Hbody Hrest]].
  destruct Hin as [<-|Hin]; [eauto|]. eapply IH; eassumption.
Qed.

(** A service none of whose tasks can succeed keeps the cycle from
    returning, whatever the schedule. *)
Lemma faulty_service_blocks_cycle
    (w : World) (reg : Registry) (services : list api_Service) (s : api_Service)
    (sched : list action) (st : cycle_state) :
  In s services ->
  (forall m r r', getMetric w m s r <> Ok r') ->
  run w sched (cycle_start reg services) = Some st ->
  c_returned st = false.
Proof.
  intros Hs Hfaulty Hrun.
  destruct (c_returned st) eqn:Hret; [exfalso|reflexivity].
  pose proof (cycle_inv_run _ _ _ _ _ _ (cycle_inv_start w reg services) Hrun) as Hinv.
  destruct (cycle_inv_returned _ _ _ _ Hinv Hret) as (Hperm & _ & _ & _ & _ & Hbodies).
  assert (Hin : In (hd {| MetricName := ""; Statistic := ""; Prometheus := fun _ _ _ _ r => Ok r |}
                       metrics, s) (c_ran st)).
  { eapply Permutation_in; [symmetry; exact Hperm|].
    apply in_fanout. split; [left; reflexivity|exact Hs]. }
  destruct (run_bodies_ok_In _ _ _ _ _ Hbodies Hin) as (r & r' & Hok).
  exact (Hfaulty _ _ _ Hok).
Qed.

(** The goroutine of a faulty task kills the process when it runs. *)
Lemma faulty_task_kills
    (w : World) (st : cycle_state) (i : nat) (m : elbMetric) (s : api_Service)
    (e : runtime_error) :
  c_dead st = None -> c_returned st = false ->
  c_started st !! i = Some (m, s) ->
  getMetric w m s (c_reg st) = Panic e ->
  step w (ActBody i) st = Some (kill (ByPanic e) st).
Proof.
  intros Hdead Hret Hi Hbody. unfold step. now rewrite Hdead, Hret, Hi, Hbody.
Qed.

Lemma getMetric_no_group
    (w : World) (m : elbMetric) (s : api_Service) (h : string) (reg : Registry) :
  service_hostname s = Some h ->
  has_group h = false ->
  getMetric w m s reg = Panic IndexOutOfRange.
Proof.
  unfold service_hostname, service_ingress, getMetric. intros Hh Hno.
  destruct (Status s) as [status|]; [|discriminate]. cbn [deref rbind].
  destruct (LoadBalancer status) as [lb|]; [|discriminate]. cbn [deref rbind].
  destruct (Ingress lb) as [|[ingress|] rest]; try discriminate.
  cbn [deref index nth_error rbind]. rewrite Hh. cbn [deref rbind].
  now rewrite (elbName_no_group _ Hno).
Qed.

Lemma getMetric_no_ingress
    (w : World) (m : elbMetric) (s : api_Service) (reg : Registry) :
  service_ingress s = Some [] \/ service_ingress s = None ->
  exists e, getMetric w m s reg = Panic e /\
            (service_ingress s = Some [] -> e = IndexOutOfRange) /\
            (service_ingress s = None -> e = NilDereference).
Proof.
  unfold service_ingress, getMetric. intros H.
  destruct (Status s) as [status|]; cbn [deref rbind].
  - destruct (LoadBalancer status) as [lb|]; cbn [deref rbind].
    + destruct H as [[= ->]|H]; [|discriminate].
      exists IndexOutOfRange. repeat split. discriminate.
    + exists NilDereference. repeat split. discriminate.
  - exists NilDereference. repeat split. discriminate.
Qed.

(** C4, at the failing inputs.  A hostname in which no numeric group (a dash
    and six digits) occurs makes the Name Resolver panic with an index out
    of range; every task of a service with such a hostname panics, and a
    cycle over a discovered set that contains the service never returns,
    under any schedule: the service is not skipped. *)
Theorem malformed_hostname_aborts_cycle
    (w : World) (reg : Registry) (services : list api_Service) (s : api_Service)
    (h : string) :
  In s services ->
  service_hostname s = Some h ->
  has_group h = false ->
  elbNameFromElbDNS h = Panic IndexOutOfRange /\
  (forall m r, getMetric w m s r = Panic IndexOutOfRange) /\
  (forall sched st, run w sched (cycle_start reg services) = Some st ->
                    c_returned st = false).
Proof.
  intros Hs Hh Hno. split; [now apply elbName_no_group|]. split.
  - intros m r. now apply getMetric_no_group with h.
  - intros sched st. apply faulty_service_blocks_cycle with s; [exact Hs|].
    intros m r r'. rewrite (getMetric_no_group w m s h r Hh Hno). discriminate.
Qed.

(** C5, at the failing inputs.  For a discovered service whose load balancer
    has no ingress yet (an empty list, or no load-balancer status at all)
    every task panics (index out of range on the empty list, nil
    dereference without a status), and a cycle over a discovered set that
    contains the service never returns, under any schedule. *)
Theorem pending_hostname_aborts_cycle
    (w : World) (reg : Registry) (services : list api_Service) (s : api_Service) :
  In s services ->
  service_ingress s = Some [] \/ service_ingress s = None ->
  (forall m r, exists e, getMetric w m s r = Panic e /\
                         (service_ingress s = Some [] -> e = IndexOutOfRange)) /\
  (forall sched st, run w sched (cycle_start reg services) = Some st ->
                    c_returned st = false).
Proof.
  intros Hs Hpending. split.
  - intros m r. destruct (getMetric_no_ingress w m s r Hpending) as (e & He & Hidx & _).
    eauto.
  - intros sched st. apply faulty_service_blocks_cycle with s; [exact Hs|].
    intros m r r'. destruct (getMetric_no_ingress w m s r Hpending) as (e & -> & _).
    discriminate.
Qed.

(** *** A schedule under which the cycle returns *)

Lemma run_app (w : World) (s1 s2 : list action) (st : cycle_state) :
  run w (s1 ++ s2) st =
  match run w s1 st with
  | Some st' => run w s2 st'
  | None => None
  end.
Proof.
  revert st. induction s1 as [|a s1 IH]; intros st; [reflexivity|].
  cbn [app run]. destruct (step w a st); [apply IH|reflexivity].
Qed.

Lemma run_all_go (w : World) (l1 l2 started ran : list task) (ex : nat) (wg : Z)
    (reg : Registry) :
  run w (repeat ActGo (length l1))
    {| c_todo := l1 ++ l2; c_started := started; c_ran := ran; c_exited := ex;
       c_wg := wg; c_reg := reg; c_dead := None; c_returned := false |}
  = Some {| c_todo := l2; c_started := started ++ l1; c_ran := ran; c_exited := ex;
            c_wg := wg; c_reg := reg; c_dead := None; c_returned := false |}.
Proof.
  revert started. induction l1 as [|t l1 IH]; intros started.
  - simpl. now rewrite app_nil_r.
  - cbn [length repeat run app step c_dead c_returned c_todo c_started c_ran c_exited c_wg c_reg].
    rewrite IH, <- app_assoc. reflexivity.
Qed.

Lemma run_all_bodies (w : World) (todo l ran : list task) (ex : nat) (wg : Z)
    (reg reg' : Registry) :
  run_bodies w l reg = Ok reg' ->
  run w (repeat (ActBody 0) (length l))
    {| c_todo := todo; c_started := l; c_ran := ran; c_exited := ex;
       c_wg := wg; c_reg := reg; c_dead := None; c_returned := false |}
  = Some {| c_todo := todo; c_started := []; c_ran := ran ++ l; c_exited := ex;
            c_wg := wg; c_reg := reg'; c_dead := None; c_returned := false |}.
Proof.
  revert ran reg. induction l as [|[m s] l IH]; intros ran reg Hrun.
  - simpl in *. injection Hrun as <-. now rewrite app_nil_r.
  - cbn [run_bodies] in Hrun. apply rbind_ok_inv in Hrun as [r1 [Hbody Hrest]].
    cbn [length repeat run step c_dead c_returned c_todo c_started c_ran c_exited c_wg c_reg].
    change ((((m, s) :: l) : list task) !! 0%nat) with (Some (m, s)).
    cbv beta iota. rewrite Hbody. change (delete 0%nat ((m, s) :: l)) with l.
    rewrite (IH _ _ Hrest), <- app_assoc. reflexivity.
Qed.

Lemma run_all_done (w : World) (todo started ran : list task) (k ex : nat) (wg : Z)
    (reg : Registry) :
  (ex + k <= length ran)%nat -> (Z.of_nat k <= wg)%Z ->
  run w (repeat ActDone k)
    {| c_todo := todo; c_started := started; c_ran := ran; c_exited := ex;
       c_wg := wg; c_reg := reg; c_dead := None; c_returned := false |}
  = Some {| c_todo := todo; c_started := started; c_ran := ran; c_exited := (ex + k)%nat;
            c_wg := (wg - Z.of_nat k)%Z; c_reg := reg; c_dead := None;
            c_returned := false |}.
Proof.
  revert ex wg. induction k as [|k IH]; intros ex wg Hex Hwg.
  - cbn [repeat run].
    replace (ex + 0)%nat with ex by lia.
    replace (wg - Z.of_nat 0)%Z with wg by lia. reflexivity.
  - cbn [repeat run step c_dead c_returned c_todo c_started c_ran c_exited c_wg c_reg].
    assert (Hlt : (ex <? length ran)%nat = true) by (apply Nat.ltb_lt; lia).
    assert (Hpos : (wg - 1 <? 0)%Z = false) by (apply Z.ltb_ge; lia).
    rewrite Hlt, Hpos, IH by lia.
    replace (S ex + k)%nat with (ex + S k)%nat by lia.
    replace (wg - 1 - Z.of_nat k)%Z with (wg - Z.of_nat (S k))%Z by lia.
    reflexivity.
Qed.

(** When no task faults, the sequential schedule makes [collectMetrics]
    return, with the effect of the task bodies in the order of the [go]
    statements. *)
Lemma sequential_returns (w : World) (reg reg' : Registry) (services : list api_Service) :
  run_bodies w (fanout services) reg = Ok reg' ->
  run w (sequential (length (fanout services))) (cycle_start reg services)
  = Some {| c_todo := []; c_started := []; c_ran := fanout services;
            c_exited := length (fanout services); c_wg := 0; c_reg := reg';
            c_dead := None; c_returned := true |}.
Proof.
  intros Hbodies. unfold sequential, cycle_start.
  rewrite run_app.
  rewrite <- (app_nil_r (fanout services)) at 2.
  rewrite run_all_go. rewrite run_app. cbn [app].
  rewrite (run_all_bodies _ _ _ _ _ _ _ _ Hbodies). rewrite run_app.
  rewrite run_all_done; cbn [app length]; [|lia|rewrite length_fanout; lia].
  cbn [run step c_dead c_returned c_todo c_started c_ran c_exited c_wg c_reg].
  replace (Z.of_nat (length services * length metrics) - Z.of_nat (length (fanout services)))%Z
    with 0%Z by (rewrite length_fanout; lia).
  reflexivity.
Qed.

(** ** Scheduler *)

Lemma wrap_int64_small (z : Z) :
  (min_int64 <= z <= max_int64)%Z -> wrap_int64 z = z.
Proof.
  unfold wrap_int64, min_int64, max_int64. intros H.
  rewrite Z.mod_small by lia. lia.
Qed.

Lemma sleep_after_cycle (D : Z) :
  (0 <= D)%Z ->
  Z.max 0 (wrap_int64 (time_Minute - time_Sub D 0)) = Z.max 0 (time_Minute - D).
Proof.
  intros HD. unfold time_Sub. rewrite Z.sub_0_r.
  destruct (Z_le_gt_dec D max_int64) as [Hle|Hgt].
  - rewrite Z.min_r by lia. rewrite (Z.max_r min_int64) by (unfold min_int64; lia).
    rewrite wrap_int64_small; [reflexivity|].
    unfold time_Minute, min_int64, max_int64 in *. lia.
  - rewrite Z.min_l by lia.
    rewrite (Z.max_r min_int64) by (unfold min_int64, max_int64; lia).
    rewrite wrap_int64_small by (unfold time_Minute, min_int64, max_int64; lia).
    unfold time_Minute, max_int64 in *. lia.
Qed.

Lemma main_iteration_clock (c : Cycle) (st st' : main_state) :
  main_iteration c st = Some st' ->
  (0 <= cy_elapsed c)%Z ->
  m_clock st' = (m_clock st + cy_elapsed c + Z.max 0 (time_Minute - cy_elapsed c))%Z /\
  m_begins st' = m_begins st ++ [m_clock st] /\
  m_slept st' = m_slept st ++ [Z.max 0 (time_Minute - cy_elapsed c)].
Proof.
  unfold main_iteration. intros Hit HD.
  destruct (collectMetrics (cy_world c) (cy_schedule c) (m_reg st)) as [cst|];
    [|discriminate].
  destruct (c_returned cst); [|discriminate].
  injection Hit as <-. cbn [m_clock m_begins m_slept]. unfold time_Sleep.
  replace (time_Sub (m_clock st + cy_elapsed c) (m_clock st))
    with (time_Sub (cy_elapsed c) 0)
    by (unfold time_Sub; f_equal; f_equal; lia).
  rewrite (sleep_after_cycle _ HD). repeat split. f_equal. f_equal. lia.
Qed.

(** C2.  Two consecutive iterations of the loop of [main], the first cycle
    taking the time [D >= 0] and the period being one minute: the sleep
    after the first cycle lasts [max 0 (P - D)], never a negative time; the
    second cycle begins when the sleep ends; for [D < P] the two cycles
    begin exactly [P] apart; for [D >= P] the second begins at the instant
    the first ended.  No cycle is skipped: each iteration records one
    beginning. *)
Theorem main_loop_cadence (c1 c2 : Cycle) (st st2 : main_state) :
  main_loop [c1; c2] st = Some st2 ->
  (0 <= cy_elapsed c1)%Z ->
  let P := time_Minute in
  let D := cy_elapsed c1 in
  exists begin1 begin2 slept1 slept2,
    m_begins st2 = m_begins st ++ [begin1; begin2] /\
    m_slept st2 = m_slept st ++ [slept1; slept2] /\
    begin1 = m_clock st /\
    slept1 = Z.max 0 (P - D) /\ (0 <= slept1)%Z /\
    begin2 = (begin1 + D + slept1)%Z /\
    (D < P -> begin2 - begin1 = P)%Z /\
    (P <= D -> slept1 = 0 /\ begin2 = begin1 + D)%Z.
Proof.
  intros Hloop HD. cbv zeta. cbn [main_loop] in Hloop.
  destruct (main_iteration c1 st) as [st1|] eqn:H1; [|discriminate].
  destruct (main_iteration c2 st1) as [st2'|] eqn:H2; [|discriminate].
  injection Hloop as <-.
  destruct (main_iteration_clock _ _ _ H1 HD) as (Hclock1 & Hbegins1 & Hslept1).
  unfold main_iteration in H2.
  destruct (collectMetrics (cy_world c2) (cy_schedule c2) (m_reg st1)) as [cst|];
    [|discriminate].
  destruct (c_returned cst); [|discriminate].
  injection H2 as <-. cbn [m_begins m_slept].
  eexists (m_clock st), (m_clock st1), (Z.max 0 (time_Minute - cy_elapsed c1)), _.
  rewrite Hbegins1, Hslept1, <- !app_assoc. cbn [app].
  repeat split; try lia.
Qed.

(** ** Metric Catalog: what the sinks write *)

Lemma scalar_of_lookup (o : option Q) : scalar_of (option_map Scalar o) = default 0%Q o.
Proof. now destruct o. Qed.

Lemma observations_of_lookup (o : option (list Q)) :
  observations_of (option_map Observations o) = default [] o.
Proof. now destruct o. Qed.

Lemma Qltb_false (v : Q) : Qltb v 0 = false -> (0 <= v)%Q.
Proof.
  unfold Qltb. intros H. apply negb_false_iff in H. now apply Qle_bool_iff.
Qed.

Lemma Counter_Add_ok (names lvs : list string) (v : Q) (vec vec' : gmap (list string) Q) :
  Counter_Add names lvs v vec = Ok vec' ->
  (0 <= v)%Q /\ vec' = <[lvs := (default 0%Q (vec !! lvs) + v)%Q]> vec.
Proof.
  unfold Counter_Add, WithLabelValues.
  destruct (length lvs =? length names)%nat; [|discriminate]. cbn [rbind].
  destruct (Qltb v 0) eqn:Hv; [discriminate|]. intros [= <-].
  split; [now apply Qltb_false|reflexivity].
Qed.

Lemma Gauge_Set_ok (names lvs : list string) (v : Q) (vec vec' : gmap (list string) Q) :
  Gauge_Set names lvs v vec = Ok vec' -> vec' = <[lvs := v]> vec.
Proof.
  unfold Gauge_Set, WithLabelValues.
  destruct (length lvs =? length names)%nat; [|discriminate]. cbn [rbind].
  now intros [= <-].
Qed.

Lemma Histogram_Observe_ok (names lvs : list string) (v : Q)
    (vec vec' : gmap (list string) (list Q)) :
  Histogram_Observe names lvs v vec = Ok vec' ->
  vec' = <[lvs := default [] (vec !! lvs) ++ [v]]> vec.
Proof.
  unfold Histogram_Observe, WithLabelValues.
  destruct (length lvs =? length names)%nat; [|discriminate]. cbn [rbind].
  now intros [= <-].
Qed.

Ltac other_series :=
  let f := fresh "f" in
  let lvs := fresh "lvs" in
  let Hne := fresh "Hne" in
  intros [f lvs] Hne; destruct f; unfold series; cbn in Hne |- *; try reflexivity;
  rewrite lookup_insert_ne; [reflexivity|congruence].

Ltac sink_case H :=
  cbn [Prometheus MetricName] in H;
  match type of H with
  | rbind (deref ?svcName) _ = _ =>
      destruct svcName as [?n|]; [|discriminate H]
  end;
  cbn [deref rbind] in H;
  match type of H with
  | rbind (deref ?ns) _ = _ =>
      destruct ns as [?ns|]; [|discriminate H]
  end;
  cbn [deref rbind] in H;
  apply rbind_ok_inv in H as (?vec & ?Hop & ?Hset);
  first [ apply Counter_Add_ok in Hop as [?Hv ->]
        | apply Gauge_Set_ok in Hop as ->
        | apply Histogram_Observe_ok in Hop as -> ];
  injection Hset as <-.

Lemma sink_effect (m : elbMetric) (elbName : string) (svcName ns : option string)
    (v : Q) (reg reg' : Registry) :
  In m metrics ->
  Prometheus m elbName svcName ns v reg = Ok reg' ->
  exists n s f pre,
    svcName = Some n /\ ns = Some s /\
    entry_series (MetricName m) = Some (f, pre) /\
    (is_counter f = true -> (0 <= v)%Q) /\
    writes_series (f, pre ++ [elbName; n; s]) v reg reg'.
Proof.
  intros Hin H. unfold metrics in Hin.
  repeat (destruct Hin as [<-|Hin]); [..|contradiction]; sink_case H;
    (do 4 eexists; split; [reflexivity|]; split; [reflexivity|];
     split; [reflexivity|]; split; [first [intros _; assumption|discriminate]|];
     split; [unfold series, write; cbn;
             rewrite lookup_insert_eq;
             first [now rewrite scalar_of_lookup
                   |now rewrite observations_of_lookup
                   |reflexivity]
            |other_series]).
Qed.

(** ** What a task does to the exported metric set *)

Lemma getMetric_ok_inv (w : World) (m : elbMetric) (s : api_Service) (reg reg' : Registry) :
  getMetric w m s reg = Ok reg' ->
  exists elbName md v,
    service_elbName s = Some elbName /\ Metadata s = Some md /\
    getElbMetric w elbName (MetricName m) (Statistic m) = Ok (Some v) /\
    Prometheus m elbName (Name md) (Namespace md) v reg = Ok reg'.
Proof.
  unfold getMetric, service_elbName, service_hostname, service_ingress. intros H.
  destruct (Status s) as [status|]; [|discriminate]. cbn [deref rbind] in H.
  destruct (LoadBalancer status) as [lb|]; [|discriminate]. cbn [deref rbind] in H.
  destruct (Ingress lb) as [|[ingress|] rest]; try discriminate.
  cbn [index nth_error deref rbind] in H.
  destruct (Hostname ingress) as [h|]; [|discriminate]. cbn [deref rbind] in H.
  destruct (elbNameFromElbDNS h) as [elbName| |]; try discriminate. cbn [rbind] in H.
  destruct (getElbMetric w elbName (MetricName m) (Statistic m)) as [v| |] eqn:Hfetch;
    try discriminate.
  cbn [rbind] in H.
  destruct (Metadata s) as [md|]; [|discriminate]. cbn [deref rbind] in H.
  destruct v as [v|]; [|discriminate].
  cbn [deref rbind] in H. exists elbName, md, v. auto.
Qed.

(** A task of the catalog that succeeds writes its sample to its series and
    to nothing else; what it adds to a counter is not negative. *)
Lemma task_effect (w : World) (m : elbMetric) (s : api_Service) (reg reg' : Registry) :
  In m metrics ->
  getMetric w m s reg = Ok reg' ->
  exists key v,
    task_series (m, s) = Some key /\ task_value w (m, s) = Some v /\
    (is_counter (fst key) = true -> (0 <= v)%Q) /\
    writes_series key v reg reg'.
Proof.
  intros Hm H.
  destruct (getMetric_ok_inv _ _ _ _ _ H) as (elbName & md & v & Helb & Hmd & Hfetch & Hsink).
  destruct (sink_effect _ _ _ _ _ _ _ Hm Hsink)
    as (n & ns & f & pre & Hn & Hns & Hentry & Hpos & Hwrites).
  exists (f, pre ++ [elbName; n; ns]), v.
  unfold task_series, task_value, service_labels. cbn [fst snd].
  rewrite Hentry, Helb, Hmd, Hn, Hns, Hfetch. auto.
Qed.

Lemma NoDup_metric_names : NoDup (map MetricName metrics).
Proof. apply (bool_decide_unpack _). vm_compute. exact I. Qed.

Lemma NoDup_entry_series : NoDup (map (fun m => entry_series (MetricName m)) metrics).
Proof. apply (bool_decide_unpack _). vm_compute. exact I. Qed.

Lemma NoDup_map_inj_In {A B : Type} (f : A -> B) (l : list A) (x y : A) :
  NoDup (map f l) -> In x l -> In y l -> f x = f y -> x = y.
Proof.
  induction l as [|a l IH]; intros Hnd Hx Hy Hxy; [contradiction|].
  cbn [map] in Hnd. apply NoDup_cons in Hnd as [Ha Hnd].
  rewrite list_elem_of_In in Ha.
  destruct Hx as [->|Hx], Hy as [->|Hy]; auto.
  - exfalso. apply Ha. rewrite Hxy. now apply in_map.
  - exfalso. apply Ha. rewrite <- Hxy. now apply in_map.
Qed.

Lemma NoDup_metrics : NoDup metrics.
Proof. apply (NoDup_fmap_1 MetricName), NoDup_metric_names. Qed.

Lemma NoDup_fanout (services : list api_Service) :
  NoDup services -> NoDup (fanout services).
Proof.
  induction 1 as [|s services Hs Hnd IH]; [constructor|].
  rewrite fanout_cons. apply NoDup_app. split; [|split].
  - apply NoDup_fmap_2; [|exact NoDup_metrics]. intros m1 m2 [= ->]. reflexivity.
  - intros [m s'] Hin1 Hin2.
    apply list_elem_of_In, in_map_iff in Hin1 as (m' & [= -> ->] & _).
    apply list_elem_of_In, in_fanout in Hin2 as [_ Hin2].
    apply Hs, list_elem_of_In, Hin2.
  - exact IH.
Qed.

(** Two tasks of one cycle that write to the same series are the same task,
    when the discovered services have distinct labels. *)
Lemma task_series_inj (services : list api_Service) (t1 t2 : task) (key : family * list string) :
  NoDup (map service_labels services) ->
  In t1 (fanout services) -> In t2 (fanout services) ->
  task_series t1 = Some key -> task_series t2 = Some key ->
  t1 = t2.
Proof.
  intros Hnd H1 H2 Hk1 Hk2. destruct t1 as [m1 s1], t2 as [m2 s2].
  apply in_fanout in H1 as [Hm1 Hs1]. apply in_fanout in H2 as [Hm2 Hs2].
  unfold task_series in Hk1, Hk2. cbn [fst snd] in Hk1, Hk2.
  destruct (entry_series (MetricName m1)) as [[f1 pre1]|] eqn:He1; [|discriminate].
  destruct (entry_series (MetricName m2)) as [[f2 pre2]|] eqn:He2; [|discriminate].
  destruct (service_labels s1) as [l1|] eqn:Hl1; [|discriminate].
  destruct (service_labels s2) as [l2|] eqn:Hl2; [|discriminate].
  injection Hk1 as <-. injection Hk2 as Hf Hpre. subst f2.
  assert (Hlen : forall s l, service_labels s = Some l -> length l = 3%nat).
  { intros s l. unfold service_labels.
    destruct (service_elbName s), (Metadata s) as [md|]; try discriminate.
    destruct (Name md), (Namespace md); try discriminate. now intros [= <-]. }
  apply app_inj_2 in Hpre as [-> ->];
    [|now rewrite (Hlen _ _ Hl1), (Hlen _ _ Hl2)].
  f_equal.
  - apply (NoDup_map_inj_In (fun m => entry_series (MetricName m)) metrics);
      [exact NoDup_entry_series|assumption..|congruence].
  - apply (NoDup_map_inj_In service_labels services); [assumption..|congruence].
Qed.

(** Tasks that write elsewhere leave a series as it is. *)
Lemma bodies_frame (w : World) (key : family * list string) (ts : list task)
    (reg reg' : Registry) :
  Forall (fun t => In (fst t) metrics /\ task_series t <> Some key) ts ->
  run_bodies w ts reg = Ok reg' ->
  series key reg' = series key reg.
Proof.
  intros Hall. revert reg. induction Hall as [|[m s] ts [Hm Hother] _ IH]; intros reg Hrun.
  - now injection Hrun as <-.
  - cbn [run_bodies] in Hrun. apply rbind_ok_inv in Hrun as [r1 [Hbody Hrest]].
    rewrite (IH _ Hrest).
    destruct (task_effect _ _ _ _ _ Hm Hbody) as (key' & v & Hkey & _ & _ & _ & Hframe).
    apply Hframe. intros ->. exact (Hother Hkey).
Qed.

Lemma run_bodies_split (w : World) (l1 l2 : list task) (m : elbMetric) (s : api_Service)
    (reg reg' : Registry) :
  run_bodies w (l1 ++ (m, s) :: l2) reg = Ok reg' ->
  exists r1 r2,
    run_bodies w l1 reg = Ok r1 /\ getMetric w m s r1 = Ok r2 /\
    run_bodies w l2 r2 = Ok reg'.
Proof.
  revert reg. induction l1 as [|[m1 s1] l1 IH]; intros reg Hbodies.
  - cbn [app run_bodies] in Hbodies.
    apply rbind_ok_inv in Hbodies as [r2 [Hbody Hrest]]. exists reg, r2. auto.
  - cbn [app run_bodies] in Hbodies.
    apply rbind_ok_inv in Hbodies as [r [Hbody Hrest]].
    destruct (IH _ Hrest) as (r1 & r2 & H1 & H2 & H3).
    exists r1, r2. cbn [run_bodies]. rewrite Hbody. auto.
Qed.

(** In a cycle that returns, the series of a task holds what that task wrote
    over the state before the cycle: no other task of the cycle touches
    it. *)
Lemma cycle_series
    (w : World) (reg : Registry) (services : list api_Service)
    (sched : list action) (st : cycle_state)
    (m0 : elbMetric) (s0 : api_Service) (key : family * list string) :
  run w sched (cycle_start reg services) = Some st ->
  c_returned st = true ->
  NoDup (map service_labels services) ->
  In m0 metrics -> In s0 services ->
  task_series (m0, s0) = Some key ->
  exists v, task_value w (m0, s0) = Some v /\
            (is_counter (fst key) = true -> (0 <= v)%Q) /\
            series key (c_reg st) = Some (write (fst key) v (series key reg)).
Proof.
  intros Hrun Hret Hnd Hm0 Hs0 Hkey.
  pose proof (cycle_inv_run _ _ _ _ _ _ (cycle_inv_start w reg services) Hrun) as Hinv.
  destruct (cycle_inv_returned _ _ _ _ Hinv Hret) as (Hperm & _ & _ & _ & _ & Hbodies).
  assert (Hin : In (m0, s0) (c_ran st)).
  { eapply Permutation_in; [symmetry; exact Hperm|]. now apply in_fanout. }
  assert (Hnodup : NoDup (c_ran st)).
  { rewrite Hperm. apply NoDup_fanout. now apply (NoDup_fmap_1 service_labels). }
  apply in_split in Hin as (l1 & l2 & Hsplit). rewrite Hsplit in Hbodies, Hnodup, Hperm.
  assert (Hothers : Forall (fun t => In (fst t) metrics /\ task_series t <> Some key)
                           (l1 ++ l2)).
  { apply List.Forall_forall. intros t Ht.
    assert (Hfan : In t (fanout services)).
    { eapply Permutation_in; [exact Hperm|].
      apply in_app_iff in Ht as [Ht|Ht]; apply in_app_iff; [left|right; right]; exact Ht. }
    split.
    - destruct t as [m s]. now apply in_fanout in Hfan as [Hm _].
    - intros Hsame.
      assert (t = (m0, s0)) as ->.
      { apply (task_series_inj services _ _ key); try assumption. now apply in_fanout. }
      apply NoDup_ListNoDup, NoDup_remove_2 in Hnodup. contradiction. }
  apply Forall_app in Hothers as [Hl1 Hl2].
  clear Hperm Hnodup Hsplit.
  destruct (run_bodies_split _ _ _ _ _ _ _ Hbodies) as (r1 & r2 & H1 & H2 & H3).
  destruct (task_effect _ _ _ _ _ Hm0 H2) as (key' & v & Hkey' & Hv & Hpos & Hwrite & _).
  assert (key' = key) as -> by congruence.
  exists v. split; [exact Hv|]. split; [exact Hpos|].
  now rewrite (bodies_frame _ _ _ _ _ Hl2 H3), Hwrite, (bodies_frame _ _ _ _ _ Hl1 H1).
Qed.

(** ** Exported Metric Set across cycles *)

Lemma counters_le_refl (reg : Registry) : counters_le reg reg.
Proof. intros f lvs x _ H. exists x. split; [exact H|apply Qle_refl]. Qed.

Lemma counters_le_trans (r1 r2 r3 : Registry) :
  counters_le r1 r2 -> counters_le r2 r3 -> counters_le r1 r3.
Proof.
  intros H12 H23 f lvs x Hf Hx.
  destruct (H12 f lvs x Hf Hx) as (y & Hy & Hxy).
  destruct (H23 f lvs y Hf Hy) as (z & Hz & Hyz).
  exists z. split; [exact Hz|]. now apply Qle_trans with y.
Qed.

Lemma series_counter_scalar (f : family) (lvs : list string) (reg : Registry) (x : Q) :
  series (f, lvs) reg = Some (Scalar x) -> scalar_of (series (f, lvs) reg) = x.
Proof. now intros ->. Qed.

Lemma task_counters_le (w : World) (m : elbMetric) (s : api_Service) (reg reg' : Registry) :
  In m metrics -> getMetric w m s reg = Ok reg' -> counters_le reg reg'.
Proof.
  intros Hm Hbody f lvs x Hf Hx.
  destruct (task_effect _ _ _ _ _ Hm Hbody) as ([f' lvs'] & v & _ & _ & Hpos & Hwrite & Hframe).
  destruct (decide ((f, lvs) = (f', lvs'))) as [[= <- <-]|Hne].
  - cbn [fst] in *. rewrite Hwrite. unfold write. rewrite Hf, Hx. cbn [scalar_of].
    eexists. split; [reflexivity|].
    specialize (Hpos Hf). rewrite <- (Qplus_0_r x) at 1.
    apply Qplus_le_compat; [apply Qle_refl|exact Hpos].
  - rewrite (Hframe _ Hne). exists x. split; [exact Hx|apply Qle_refl].
Qed.

Lemma bodies_counters_le (w : World) (ts : list task) (reg reg' : Registry) :
  Forall (fun t => In (fst t) metrics) ts ->
  run_bodies w ts reg = Ok reg' -> counters_le reg reg'.
Proof.
  intros Hall. revert reg. induction Hall as [|[m s] ts Hm _ IH]; intros reg Hrun.
  - injection Hrun as <-. apply counters_le_refl.
  - cbn [run_bodies] in Hrun. apply rbind_ok_inv in Hrun as [r1 [Hbody Hrest]].
    eapply counters_le_trans; [eapply task_counters_le; eassumption|now apply IH].
Qed.

Lemma cycle_inv_ran_catalog (w : World) (reg0 : Registry) (services : list api_Service)
    (st : cycle_state) :
  cycle_inv w reg0 services st -> Forall (fun t => In (fst t) metrics) (c_ran st).
Proof.
  intros ((issued & Hissued & Hperm) & _). apply List.Forall_forall. intros [m s] Hin.
  assert (Hfan : In (m, s) (fanout services)).
  { rewrite <- Hissued. apply in_app_iff. left.
    eapply Permutation_in; [exact Hperm|]. apply in_app_iff. now left. }
  now apply in_fanout in Hfan as [Hm _].
Qed.

(** No step of a cycle makes a counter series smaller. *)
Lemma run_counters_le (w : World) (reg : Registry) (services : list api_Service)
    (sched : list action) (st : cycle_state) :
  run w sched (cycle_start reg services) = Some st -> counters_le reg (c_reg st).
Proof.
  intros Hrun.
  pose proof (cycle_inv_run _ _ _ _ _ _ (cycle_inv_start w reg services) Hrun) as Hinv.
  pose proof (cycle_inv_ran_catalog _ _ _ _ Hinv) as Hcat.
  destruct Hinv as (_ & _ & _ & Hbodies & _).
  exact (bodies_counters_le _ _ _ _ Hcat Hbodies).
Qed.

Lemma collectMetrics_counters_le (w : World) (sched : list action) (reg : Registry)
    (st : cycle_state) :
  collectMetrics w sched reg = Some st -> counters_le reg (c_reg st).
Proof.
  unfold collectMetrics. destruct (getAllServices w) as [services|err|e].
  - apply run_counters_le.
  - intros [= <-]. apply counters_le_refl.
  - intros [= <-]. apply counters_le_refl.
Qed.

Lemma main_iteration_inv (c : Cycle) (st st' : main_state) :
  main_iteration c st = Some st' ->
  exists services cst,
    getAllServices (cy_world c) = Ok services /\
    run (cy_world c) (cy_schedule c) (cycle_start (m_reg st) services) = Some cst /\
    c_returned cst = true /\ m_reg st' = c_reg cst.
Proof.
  unfold main_iteration. intros H.
  destruct (collectMetrics (cy_world c) (cy_schedule c) (m_reg st)) as [cst|] eqn:Hc;
    [|discriminate].
  destruct (c_returned cst) eqn:Hret; [|discriminate].
  injection H as <-. unfold collectMetrics in Hc.
  destruct (getAllServices (cy_world c)) as [services|err|e].
  - exists services, cst. auto.
  - injection Hc as <-. discriminate.
  - injection Hc as <-. discriminate.
Qed.

Lemma main_loop_two (c1 c2 : Cycle) (st st2 : main_state) :
  main_loop [c1; c2] st = Some st2 ->
  exists st1, main_iteration c1 st = Some st1 /\ main_iteration c2 st1 = Some st2.
Proof.
  cbn [main_loop]. intros H.
  destruct (main_iteration c1 st) as [st1|]; [|discriminate].
  destruct (main_iteration c2 st1) as [st2'|] eqn:H2; [|discriminate].
  injection H as <-. eauto.
Qed.

Lemma main_iteration_counters_le (c : Cycle) (st st' : main_state) :
  main_iteration c st = Some st' -> counters_le (m_reg st) (m_reg st').
Proof.
  intros H. destruct (main_iteration_inv _ _ _ H) as (services & cst & _ & Hrun & _ & ->).
  exact (run_counters_le _ _ _ _ _ Hrun).
Qed.

Lemma main_loop_counters_le (cs : list Cycle) (st st' : main_state) :
  main_loop cs st = Some st' -> counters_le (m_reg st) (m_reg st').
Proof.
  revert st. induction cs as [|c cs IH]; intros st H; cbn [main_loop] in H.
  - injection H as <-. apply counters_le_refl.
  - destruct (main_iteration c st) as [st1|] eqn:H1; [|discriminate].
    eapply counters_le_trans; [exact (main_iteration_counters_le _ _ _ H1)|now apply IH].
Qed.

(** The catalog pairs each metric with one statistic. *)
Lemma catalog_entry (name statistic : string) :
  In (name, statistic) (map (fun m => (MetricName m, Statistic m)) metrics) ->
  exists m, In m metrics /\ MetricName m = name /\ Statistic m = statistic.
Proof.
  intros H. apply in_map_iff in H as (m & [= <- <-] & Hm). eauto.
Qed.

(** After an iteration that discovers the service labelled [labels], the
    series of the entry [name] for these labels holds the sample of this
    cycle, written over the state the iteration began with. *)
Lemma main_iteration_series
    (c : Cycle) (st st' : main_state) (labels : list string)
    (name statistic : string) (x : Q) (f : family) (pre : list string) :
  main_iteration c st = Some st' ->
  cycle_fetches labels name statistic c x ->
  In (name, statistic) (map (fun m => (MetricName m, Statistic m)) metrics) ->
  entry_series name = Some (f, pre) ->
  series (f, pre ++ labels) (m_reg st')
    = Some (write f x (series (f, pre ++ labels) (m_reg st))) /\
  (is_counter f = true -> (0 <= x)%Q).
Proof.
  intros Hit (services & s0 & elbName & Hdisc & Hnd & Hs0 & Hlabels & Helb & Hfetch)
         Hin Hentry.
  destruct (main_iteration_inv _ _ _ Hit) as (services' & cst & Hdisc' & Hrun & Hret & ->).
  assert (services' = services) as -> by congruence.
  destruct (catalog_entry _ _ Hin) as (m0 & Hm0 & Hname & Hstat).
  assert (Hkey : task_series (m0, s0) = Some (f, pre ++ labels)).
  { unfold task_series. cbn [fst snd]. now rewrite Hname, Hentry, Hlabels. }
  destruct (cycle_series _ _ _ _ _ m0 s0 _ Hrun Hret Hnd Hm0 Hs0 Hkey)
    as (v & Hv & Hpos & Hseries).
  unfold task_value in Hv. cbn [fst snd] in Hv.
  rewrite Helb, Hname, Hstat, Hfetch in Hv. injection Hv as <-.
  cbn [fst] in *. auto.
Qed.

Lemma series_inj_scalar (o1 o2 : option Q) :
  option_map Scalar o1 = option_map Scalar o2 -> o1 = o2.
Proof. destruct o1, o2; simpl; congruence. Qed.

Lemma ran_in_fanout (w : World) (reg0 : Registry) (services : list api_Service)
    (st : cycle_state) (t : task) :
  cycle_inv w reg0 services st -> In t (c_ran st) -> In t (fanout services).
Proof.
  intros ((issued & Hissued & Hperm) & _) Hin.
  rewrite <- Hissued. apply in_app_iff. left.
  eapply Permutation_in; [exact Hperm|]. apply in_app_iff. now left.
Qed.

Lemma run_frame
    (w : World) (reg : Registry) (services : list api_Service)
    (sched : list action) (st : cycle_state) (key : family * list string) :
  run w sched (cycle_start reg services) = Some st ->
  (forall t, In t (fanout services) -> task_series t <> Some key) ->
  series key (c_reg st) = series key reg.
Proof.
  intros Hrun Hother.
  pose proof (cycle_inv_run _ _ _ _ _ _ (cycle_inv_start w reg services) Hrun) as Hinv.
  pose proof (cycle_inv_ran_catalog _ _ _ _ Hinv) as Hcat.
  assert (Hall : Forall (fun t => In (fst t) metrics /\ task_series t <> Some key) (c_ran st)).
  { apply List.Forall_forall. intros t Ht. split.
    - rewrite List.Forall_forall in Hcat. now apply Hcat.
    - apply Hother. eapply ran_in_fanout; eassumption. }
  destruct Hinv as (_ & _ & _ & Hbodies & _).
  exact (bodies_frame _ _ _ _ _ Hall Hbodies).
Qed.

Lemma main_loop_cons (c : Cycle) (cs : list Cycle) (st st' : main_state) :
  main_loop (c :: cs) st = Some st' ->
  exists st1, main_iteration c st = Some st1 /\ main_loop cs st1 = Some st'.
Proof.
  cbn [main_loop]. destruct (main_iteration c st) as [st1|]; [eauto|discriminate].
Qed.

Lemma main_loop_app (cs1 cs2 : list Cycle) (st st' : main_state) :
  main_loop (cs1 ++ cs2) st = Some st' ->
  exists st1, main_loop cs1 st = Some st1 /\ main_loop cs2 st1 = Some st'.
Proof.
  revert st. induction cs1 as [|c cs1 IH]; intros st H; cbn [app] in H.
  - eauto.
  - destruct (main_loop_cons _ _ _ _ H) as (st1 & H1 & Hrest).
    destruct (IH _ Hrest) as (st2 & H2 & H3).
    exists st2. cbn [main_loop]. now rewrite H1.
Qed.

(** The two gauge vectors receive the averages of their metrics, under the
    labels of the service alone. *)
Lemma gauge_entry (f : family) :
  is_gauge f = true ->
  In (gauge_metric f, "Average") (map (fun m => (MetricName m, Statistic m)) metrics) /\
  entry_series (gauge_metric f) = Some (f, []).
Proof.
  destruct f; try discriminate; intros _; (split; [vm_compute; tauto|reflexivity]).
Qed.

Lemma entry_series_gauge (name : string) (f : family) (pre : list string) :
  entry_series name = Some (f, pre) -> is_gauge f = true -> pre = [].
Proof.
  unfold entry_series.
  repeat match goal with
         | |- context [String.eqb name ?x] => destruct (String.eqb name x)
         end; intros [= <- <-]; (reflexivity || discriminate).
Qed.

Lemma write_gauge (f : family) (v : Q) (old : option sample) :
  is_gauge f = true -> write f v old = Scalar v.
Proof. destruct f; try discriminate; reflexivity. Qed.

(** A cycle that does not discover the service leaves its gauges alone. *)
Lemma main_iteration_keeps_gauge
    (c : Cycle) (st st' : main_state) (labels : list string) (f : family) :
  main_iteration c st = Some st' ->
  cycle_misses labels c ->
  is_gauge f = true ->
  series (f, labels) (m_reg st') = series (f, labels) (m_reg st).
Proof.
  intros Hit (services & Hdisc & Hmiss) Hgauge.
  destruct (main_iteration_inv _ _ _ Hit) as (services' & cst & Hdisc' & Hrun & _ & ->).
  assert (services' = services) as -> by congruence.
  apply (run_frame _ _ _ _ _ _ Hrun).
  intros [m s] Hin Hkey. apply in_fanout in Hin as [_ Hs].
  unfold task_series in Hkey. cbn [fst snd] in Hkey.
  destruct (entry_series (MetricName m)) as [[f' pre']|] eqn:Hentry; [|discriminate].
  destruct (service_labels s) as [labels'|] eqn:Hlabels; [|discriminate].
  injection Hkey as -> Happ.
  rewrite (entry_series_gauge _ _ _ Hentry Hgauge) in Happ. cbn [app] in Happ. subst labels'.
  exact (Hmiss s Hs Hlabels).
Qed.

Lemma discovered_or_missed (services : list api_Service) (labels : list string) :
  (exists s, In s services /\ service_labels s = Some labels) \/
  (forall s, In s services -> service_labels s <> Some labels).
Proof.
  induction services as [|s services [(s0 & Hs0 & Hl)|Hmiss]].
  - right. intros s [].
  - left. exists s0. split; [now right|exact Hl].
  - destruct (decide (service_labels s = Some labels)) as [Heq|Hne].
    + left. exists s. split; [now left|exact Heq].
    + right. intros s' [<-|Hs']; [exact Hne|now apply Hmiss].
Qed.

(** What one iteration does to a gauge series: nothing when the cycle does
    not discover the service, and otherwise the series holds the average
    that this cycle fetched. *)
Lemma main_iteration_gauge
    (c : Cycle) (st st' : main_state) (labels : list string) (f : family) :
  main_iteration c st = Some st' ->
  distinct_labels c ->
  is_gauge f = true ->
  (cycle_misses labels c /\
   series (f, labels) (m_reg st') = series (f, labels) (m_reg st)) \/
  (exists v, cycle_fetches labels (gauge_metric f) "Average" c v /\
             series (f, labels) (m_reg st') = Some (Scalar v)).
Proof.
  intros Hit Hdistinct Hgauge.
  destruct (main_iteration_inv _ _ _ Hit) as (services & cst & Hdisc & Hrun & Hret & Hreg).
  destruct (discovered_or_missed services labels) as [(s0 & Hs0 & Hlabels)|Hmiss].
  - right. destruct (gauge_entry f Hgauge) as [Hin Hentry].
    destruct (catalog_entry _ _ Hin) as (m0 & Hm0 & Hname & Hstat).
    assert (Hkey : task_series (m0, s0) = Some (f, labels)).
    { unfold task_series. cbn [fst snd]. now rewrite Hname, Hentry, Hlabels. }
    destruct (cycle_series _ _ _ _ _ m0 s0 _ Hrun Hret (Hdistinct _ Hdisc) Hm0 Hs0 Hkey)
      as (v & Hv & _ & Hseries).
    exists v. split.
    + unfold task_value in Hv. cbn [fst snd] in Hv.
      destruct (service_elbName s0) as [elbName|] eqn:Helb; [|discriminate].
      rewrite Hname, Hstat in Hv.
      destruct (getElbMetric (cy_world c) elbName (gauge_metric f) "Average")
        as [[v'|]| |] eqn:Hfetch; try discriminate.
      injection Hv as ->.
      exists services, s0, elbName.
      split; [exact Hdisc|]. split; [exact (Hdistinct _ Hdisc)|]. auto.
    + rewrite Hreg, Hseries. cbn [fst]. now rewrite write_gauge.
  - left. assert (Hm : cycle_misses labels c) by (exists services; auto).
    split; [exact Hm|]. now apply main_iteration_keeps_gauge with c.
Qed.

(** C9, as amended.  Over the process lifetime (any cycles [cs], the services
    discovered by each of them having distinct labels): between any two
    points of it no counter series disappears or decreases; and every gauge
    series, for every tuple of labels, holds exactly the average fetched by
    the most recent cycle that discovered the service with these labels,
    whatever the cycles after it did, or what it held at the start when no
    cycle discovered such a service. *)
Theorem counters_grow_gauges_keep_last_write
    (cs : list Cycle) (st st' : main_state) :
  main_loop cs st = Some st' ->
  Forall distinct_labels cs ->
  (forall cs1 cs2, cs = cs1 ++ cs2 ->
     exists st1, main_loop cs1 st = Some st1 /\ main_loop cs2 st1 = Some st' /\
                 counters_le (m_reg st) (m_reg st1) /\
                 counters_le (m_reg st1) (m_reg st')) /\
  (forall f labels, is_gauge f = true ->
     (Forall (cycle_misses labels) cs /\
      series (f, labels) (m_reg st') = series (f, labels) (m_reg st)) \/
     (exists pre c post v,
         cs = pre ++ c :: post /\
         cycle_fetches labels (gauge_metric f) "Average" c v /\
         Forall (cycle_misses labels) post /\
         series (f, labels) (m_reg st') = Some (Scalar v))).
Proof.
  intros Hloop Hall. split.
  - intros cs1 cs2 ->. destruct (main_loop_app _ _ _ _ Hloop) as (st1 & H1 & H2).
    exists st1. repeat split; try assumption; eapply main_loop_counters_le; eassumption.
  - intros f labels Hgauge. revert st Hloop.
    induction Hall as [|c cs Hc _ IH]; intros st Hloop.
    + cbn [main_loop] in Hloop. injection Hloop as <-. left. split; [constructor|reflexivity].
    + destruct (main_loop_cons _ _ _ _ Hloop) as (st1 & H1 & Hrest).
      destruct (IH _ Hrest) as [[Hmisses Hsame]|(pre & c' & post & v & -> & Hf & Hpost & Hv)].
      * destruct (main_iteration_gauge _ _ _ labels f H1 Hc Hgauge)
          as [[Hmiss Hkept]|(v & Hf & Hv)].
        -- left. split; [now constructor|]. now rewrite Hsame.
        -- right. exists [], c, cs, v. repeat split; try assumption. now rewrite Hsame.
      * right. exists (c :: pre), c', post, v. repeat split; assumption.
Qed.

Lemma surge_accumulates_from
    (cs : list Cycle) (maxima : list Q) (st st' : main_state) (labels : list string) :
  Forall2 (cycle_fetches labels "SurgeQueueLength" "Maximum") cs maxima ->
  main_loop cs st = Some st' ->
  scalar_of (series (FSurgeQueueLength, labels) (m_reg st'))
    = fold_left Qplus maxima (scalar_of (series (FSurgeQueueLength, labels) (m_reg st))).
Proof.
  intros Hall. revert st. induction Hall as [|c m cs maxima Hc _ IH]; intros st Hloop;
    cbn [main_loop] in Hloop.
  - now injection Hloop as <-.
  - destruct (main_iteration c st) as [st1|] eqn:H1; [|discriminate].
    rewrite (IH _ Hloop). cbn [fold_left]. f_equal.
    destruct (main_iteration_series _ _ _ _ _ _ _ FSurgeQueueLength [] H1 Hc)
      as [Hseries _]; [vm_compute; tauto|reflexivity|].
    cbn [app] in Hseries. now rewrite Hseries.
Qed.

(** C10.  The catalog pairs SurgeQueueLength with the statistic Maximum and
    its sink adds to the counter vector registered as
    urd_surge_queue_length.  From the start of the process, after the cycles
    [cs] in each of which the service labelled [labels] is discovered and
    CloudWatch answers the maximum of that cycle, the series of these labels
    is the sum of all these maxima: each cycle adds its maximum to what the
    earlier cycles left. *)
Theorem surge_queue_length_accumulates
    (cs : list Cycle) (maxima : list Q) (clock : Z) (st' : main_state)
    (labels : list string) :
  Forall2 (cycle_fetches labels "SurgeQueueLength" "Maximum") cs maxima ->
  main_loop cs (main_start clock) = Some st' ->
  In ("SurgeQueueLength", "Maximum") (map (fun m => (MetricName m, Statistic m)) metrics) /\
  entry_series "SurgeQueueLength" = Some (FSurgeQueueLength, []) /\
  is_counter FSurgeQueueLength = true /\
  family_name FSurgeQueueLength = "urd_surge_queue_length" /\
  default 0%Q (surgeQueueLength (m_reg st') !! labels) = fold_left Qplus maxima 0%Q /\
  (cs <> [] -> is_Some (surgeQueueLength (m_reg st') !! labels)).
Proof.
  intros Hall Hloop.
  split; [vm_compute; tauto|]. do 3 (split; [reflexivity|]). split.
  - pose proof (surge_accumulates_from _ _ _ _ _ Hall Hloop) as H.
    unfold series in H. cbn [fst snd m_reg main_start init surgeQueueLength] in H.
    rewrite lookup_empty in H. rewrite scalar_of_lookup in H. exact H.
  - intros Hne. destruct Hall as [|c m cs maxima Hc Hall]; [contradiction|].
    cbn [main_loop] in Hloop.
    destruct (main_iteration c (main_start clock)) as [st1|] eqn:H1; [|discriminate].
    assert (H : forall cs maxima st st',
               Forall2 (cycle_fetches labels "SurgeQueueLength" "Maximum") cs maxima ->
               main_loop cs st = Some st' ->
               is_Some (surgeQueueLength (m_reg st) !! labels) ->
               is_Some (surgeQueueLength (m_reg st') !! labels)).
    { clear. intros cs maxima st st' Hall. revert st.
      induction Hall as [|c m cs maxima Hc _ IH]; intros st Hloop Hsome;
        cbn [main_loop] in Hloop.
      - now injection Hloop as <-.
      - destruct (main_iteration c st) as [st1|] eqn:H1; [|discriminate].
        apply (IH _ Hloop).
        destruct (main_iteration_series _ _ _ _ _ _ _ FSurgeQueueLength [] H1 Hc)
          as [Hseries _]; [vm_compute; tauto|reflexivity|].
        unfold series in Hseries. cbn [fst snd app] in Hseries.
        destruct (surgeQueueLength (m_reg st1) !! labels); [eauto|discriminate]. }
    apply (H _ _ _ _ Hall Hloop).
    destruct (main_iteration_series _ _ _ _ _ _ _ FSurgeQueueLength [] H1 Hc)
      as [Hseries _]; [vm_compute; tauto|reflexivity|].
    unfold series in Hseries. cbn [fst snd app] in Hseries.
    destruct (surgeQueueLength (m_reg st1) !! labels); [eauto|discriminate].
Qed.
(** ** The theorems on the sample worlds *)

Lemma demo_discovery (stat : Q) : getAllServices (demo_world stat) = Ok [demo_service].
Proof. reflexivity. Qed.

Lemma demo_service_labels : service_labels demo_service = Some demo_labels.
Proof. vm_compute. reflexivity. Qed.

Lemma demo_cycle_fetches (name statistic : string) (stat : Q) (elapsed : Z) :
  In statistic ["Sum"; "Average"; "Maximum"; "Minimum"] ->
  cycle_fetches demo_labels name statistic (demo_cycle stat elapsed) stat.
Proof.
  intros Hstat. exists [demo_service], demo_service, "a8280213c611d114o7340onc0d34252".
  split; [apply demo_discovery|]. split; [apply NoDup_singleton|].
  split; [now left|]. split; [exact demo_service_labels|].
  split; [vm_compute; reflexivity|].
  cbn in Hstat. destruct Hstat as [<-|[<-|[<-|[<-|[]]]]]; reflexivity.
Qed.

(** C1 on a cycle over one service: under the sequential schedule the cycle
    returns, and then its 1×13 tasks have run and called [wg.Done]. *)
Lemma collectMetrics_barrier_witness :
  exists st,
    run (demo_world 1) (sequential 13) (cycle_start init [demo_service]) = Some st /\
    c_returned st = true /\
    length (c_ran st) = 13%nat /\ c_exited st = 13%nat /\ c_started st = [].
Proof.
  assert (Hok : is_ok (run_bodies (demo_world 1) (fanout [demo_service]) init) = true)
    by (vm_compute; reflexivity).
  destruct (is_ok_inv _ Hok) as [reg' Hbodies].
  pose proof (sequential_returns _ _ _ _ Hbodies) as Hrun.
  eexists. split; [exact Hrun|].
  destruct (collectMetrics_barrier _ _ _ _ _ Hrun) as [_ H].
  destruct (H eq_refl) as (_ & Hlen & Hstarted & _ & Hex & _).
  repeat split; assumption.
Defined.

(** C2 on two cycles of 20 seconds: they begin one minute apart. *)
Lemma main_loop_cadence_witness :
  exists st2,
    main_loop [demo_cycle 1 20000000000; demo_cycle 1 20000000000] (main_start 0) = Some st2 /\
    m_begins st2 = [0; 60000000000]%Z /\ m_slept st2 = [40000000000; 40000000000]%Z.
Proof.
  assert (Hok : is_some (main_loop [demo_cycle 1 20000000000; demo_cycle 1 20000000000]
                            (main_start 0)) = true)
    by (vm_compute; reflexivity).
  destruct (is_some_inv _ Hok) as [st2 Hloop].
  exists st2. split; [exact Hloop|].
  assert (HD : (0 <= cy_elapsed (demo_cycle 1 20000000000))%Z) by (simpl; lia).
  destruct (main_loop_cadence _ _ _ _ Hloop HD)
    as (b1 & b2 & s1 & s2 & Hb & Hs & -> & -> & _ & -> & _ & _).
  rewrite Hb. split; [reflexivity|].
  destruct (main_loop_two _ _ _ _ Hloop) as (st1 & H1 & H2).
  destruct (main_iteration_clock _ _ _ H1 HD) as (_ & _ & Hs1).
  destruct (main_iteration_clock _ _ _ H2 HD) as (_ & _ & Hs2).
  rewrite Hs2, Hs1. reflexivity.
Defined.

(** C4 on a service whose hostname has five digits after the dash. *)
Lemma malformed_hostname_aborts_cycle_witness :
  elbNameFromElbDNS "lb-12345.example.com" = Panic IndexOutOfRange /\
  (forall m r, getMetric (demo_world 1) m foreign_service r = Panic IndexOutOfRange) /\
  (forall sched st,
     run (demo_world 1) sched (cycle_start init [demo_service; foreign_service]) = Some st ->
     c_returned st = false).
Proof.
  apply (malformed_hostname_aborts_cycle (demo_world 1) init
           [demo_service; foreign_service] foreign_service "lb-12345.example.com").
  - right. left. reflexivity.
  - reflexivity.
  - reflexivity.
Defined.

(** C5 on a service whose load balancer has no ingress yet. *)
Lemma pending_hostname_aborts_cycle_witness :
  (forall m r, exists e,
     getMetric (demo_world 1) m pending_service r = Panic e /\
     (service_ingress pending_service = Some [] -> e = IndexOutOfRange)) /\
  (forall sched st,
     run (demo_world 1) sched (cycle_start init [demo_service; pending_service]) = Some st ->
     c_returned st = false).
Proof.
  apply (pending_hostname_aborts_cycle (demo_world 1) init
           [demo_service; pending_service] pending_service).
  - right. left. reflexivity.
  - left. reflexivity.
Defined.

(** C6 on a world in which CloudWatch has no data point. *)
Lemma getElbMetric_no_datapoints_witness :
  getElbMetric (demo_world_with (demo_client []) []) "a8280213c611d114o7340onc0d34252"
    "HTTPCode_Backend_5XX" "Sum" = Ok (Some 0%Q) /\
  (value <~ getElbMetric (demo_world_with (demo_client []) [])
              "a8280213c611d114o7340onc0d34252" "HTTPCode_Backend_5XX" "Sum" ;;
   deref value) = Ok 0%Q.
Proof.
  apply (getElbMetric_no_datapoints (demo_world_with (demo_client []) [])
           "a8280213c611d114o7340onc0d34252" "HTTPCode_Backend_5XX" "Sum"
           {| Datapoints := [] |}); reflexivity.
Defined.

(** C7 on a world whose API server refuses the connection. *)
Lemma getAllServices_ListNamespaces_error_witness :
  getAllServices (demo_world_with unreachable_client []) = Panic NilDereference /\
  getAllServices (demo_world_with unreachable_client []) <> Fatal "connection refused".
Proof.
  apply (getAllServices_ListNamespaces_error (demo_world_with unreachable_client [])
           unreachable_client "connection refused"); reflexivity.
Defined.

(** C8 on the sample cluster: of its two services the load-balanced one is
    returned. *)
Lemma getAllServices_load_balanced_witness :
  getAllServices (demo_world 1) = Ok [demo_service] /\
  In demo_service [demo_service] /\ ~ In cluster_service [demo_service].
Proof.
  destruct (getAllServices_load_balanced (demo_world 1)
              (demo_client [Some cluster_service; Some demo_service]) demo_namespaces)
    as [Hall Hiff].
  - reflexivity.
  - reflexivity.
  - repeat constructor.
    exists [Some cluster_service; Some demo_service]. split; [reflexivity|].
    repeat constructor; eexists; (split; [reflexivity|discriminate]).
  - split; [exact Hall|]. split; [now left|].
    intros Hin. change [demo_service]
      with (all_load_balanced (demo_client [Some cluster_service; Some demo_service])
              (ns_Items demo_namespaces)) in Hin.
    apply Hiff in Hin as (ns & items & _ & _ & _ & Hty). discriminate Hty.
Defined.

Lemma gone_cycle_misses : cycle_misses demo_labels gone_cycle.
Proof. exists []. split; [reflexivity|]. intros s []. Qed.

Lemma demo_cycle_discovers (stat : Q) (elapsed : Z) (labels : list string) :
  cycle_misses labels (demo_cycle stat elapsed) -> labels <> demo_labels.
Proof.
  intros (services & Hdisc & Hmiss) ->.
  change (cy_world (demo_cycle stat elapsed)) with (demo_world stat) in Hdisc.
  rewrite demo_discovery in Hdisc. injection Hdisc as <-.
  exact (Hmiss demo_service (or_introl eq_refl) demo_service_labels).
Qed.

Lemma demo_cycle_average (stat : Q) (elapsed : Z) (labels : list string) (name : string) (v : Q) :
  cycle_fetches labels name "Average" (demo_cycle stat elapsed) v -> v = stat.
Proof.
  intros (services & s0 & elbName & _ & _ & _ & _ & _ & Hfetch).
  cbn in Hfetch. congruence.
Qed.

Lemma demo_cycle_distinct (stat : Q) (elapsed : Z) : distinct_labels (demo_cycle stat elapsed).
Proof.
  intros services Hdisc.
  change (cy_world (demo_cycle stat elapsed)) with (demo_world stat) in Hdisc.
  rewrite demo_discovery in Hdisc. injection Hdisc as <-. apply NoDup_singleton.
Qed.

Lemma gone_cycle_discovery : getAllServices (cy_world gone_cycle) = Ok [].
Proof. reflexivity. Qed.

Lemma gone_cycle_distinct : distinct_labels gone_cycle.
Proof.
  intros services Hdisc. rewrite gone_cycle_discovery in Hdisc.
  injection Hdisc as <-. constructor.
Qed.

Lemma gone_cycle_fetches_nothing (labels : list string) (name statistic : string) (v : Q) :
  ~ cycle_fetches labels name statistic gone_cycle v.
Proof.
  intros (services & s0 & elbName & Hdisc & _ & Hs0 & _).
  rewrite gone_cycle_discovery in Hdisc. injection Hdisc as <-. destruct Hs0.
Qed.

(** C9 on three cycles: the service is discovered with the averages 2 and
    then 7 and is gone in the third cycle; the gauge holds the 7 of the
    second cycle, and no counter has decreased. *)
Lemma counters_grow_gauges_keep_last_write_witness :
  exists st',
    main_loop [demo_cycle 2 0; demo_cycle 7 0; gone_cycle] (main_start 0) = Some st' /\
    series (FHealthyHostCount, demo_labels) (m_reg st') = Some (Scalar 7) /\
    counters_le init (m_reg st').
Proof.
  assert (Hok : is_some (main_loop [demo_cycle 2 0; demo_cycle 7 0; gone_cycle]
                           (main_start 0)) = true) by (vm_compute; reflexivity).
  destruct (is_some_inv _ Hok) as [st' Hloop].
  exists st'. split; [exact Hloop|].
  destruct (counters_grow_gauges_keep_last_write _ _ _ Hloop) as [Hcounters Hgauges].
  - repeat constructor; [apply demo_cycle_distinct..|apply gone_cycle_distinct].
  - split.
    + destruct (Hgauges FHealthyHostCount demo_labels eq_refl)
        as [[Hmisses _]|(pre & c & post & v & Hsplit & Hf & Hpost & Hv)].
      * apply List.Forall_inv in Hmisses.
        now destruct (demo_cycle_discovers _ _ _ Hmisses).
      * destruct pre as [|c1 [|c2 [|c3 pre]]]; cbn [app] in Hsplit.
        -- injection Hsplit as <- <-. apply List.Forall_inv in Hpost.
           now destruct (demo_cycle_discovers _ _ _ Hpost).
        -- injection Hsplit as _ <- <-.
           now rewrite Hv, (demo_cycle_average _ _ _ _ _ Hf).
        -- injection Hsplit as _ _ <- _.
           now destruct (gone_cycle_fetches_nothing _ _ _ _ Hf).
        -- injection Hsplit as _ _ _ Hnil. now destruct pre.
    + destruct (Hcounters [] _ eq_refl) as (st1 & H1 & _ & _ & Hle).
      cbn [main_loop] in H1. injection H1 as <-. exact Hle.
Defined.

(** C9, as the spec states it, fails for the labels of a service that is
    gone: the most recent cycle discovers no service and fetches nothing,
    and the gauge of the service still holds the 3 that the cycle before
    it wrote. *)
Lemma gauge_of_gone_service_counterexample :
  exists st',
    main_loop [demo_cycle 3 0; gone_cycle] (main_start 0) = Some st' /\
    getAllServices (cy_world gone_cycle) = Ok [] /\
    series (FHealthyHostCount, demo_labels) (m_reg st') = Some (Scalar 3) /\
    ~ spec_gauges_latest gone_cycle (m_reg st').
Proof.
  assert (Hok : is_some (main_loop [demo_cycle 3 0; gone_cycle] (main_start 0)) = true)
    by (vm_compute; reflexivity).
  destruct (is_some_inv _ Hok) as [st' Hloop].
  assert (Hstale : series (FHealthyHostCount, demo_labels) (m_reg st') = Some (Scalar 3)).
  { destruct (main_loop_two _ _ _ _ Hloop) as (st1 & H1 & H2).
    rewrite (main_iteration_keeps_gauge _ _ _ demo_labels FHealthyHostCount H2
               gone_cycle_misses eq_refl).
    destruct (main_iteration_series _ _ _ demo_labels "HealthyHostCount" "Average" 3
                FHealthyHostCount [] H1) as [Hseries _].
    - apply demo_cycle_fetches. right. left. reflexivity.
    - vm_compute. tauto.
    - reflexivity.
    - exact Hseries. }
  exists st'. split; [exact Hloop|]. split; [reflexivity|]. split; [exact Hstale|].
  intros Hspec.
  exact (gone_cycle_fetches_nothing _ _ _ _
           (Hspec FHealthyHostCount demo_labels 3%Q eq_refl Hstale)).
Qed.

(** C10 on two cycles with the maxima 3 and 5: the series holds their
    sum, not the 5 of the last cycle. *)
Lemma surge_queue_length_accumulates_witness :
  exists st',
    main_loop [demo_cycle 3 0; demo_cycle 5 0] (main_start 0) = Some st' /\
    default 0%Q (surgeQueueLength (m_reg st') !! demo_labels) = (0 + 3 + 5)%Q.
Proof.
  assert (Hok : is_some (main_loop [demo_cycle 3 0; demo_cycle 5 0] (main_start 0)) = true)
    by (vm_compute; reflexivity).
  destruct (is_some_inv _ Hok) as [st' Hloop].
  exists st'. split; [exact Hloop|].
  destruct (surge_queue_length_accumulates [demo_cycle 3 0; demo_cycle 5 0] [3; 5]%Q
              0 st' demo_labels) as (_ & _ & _ & _ & Hsum & _).
  - repeat constructor; apply demo_cycle_fetches; right; right; left; reflexivity.
  - exact Hloop.
  - exact Hsum.
Defined.

(** * Further properties of [main.go] *)

(** ** Name Resolver: when it returns *)

Lemma greedy_any_last (s : string) (cs : caps) (k : cont) :
  greedy_any s cs k = None -> k s cs = None.
Proof.
  destruct s as [|c s]; cbn [greedy_any]; [auto|].
  destruct (Ascii.eqb c newline); [auto|].
  destruct (greedy_any s cs k); [discriminate|auto].
Qed.

Lemma match_here_group (s : string) :
  starts_group s = true -> exists whole name, match_here elbDNS_re s = Some [whole; name].
Proof.
  unfold starts_group. intros Hs.
  destruct (group_rest s) as [rest|] eqn:Hrest; [|discriminate].
  unfold match_here. rewrite rmatch_elbDNS_re.
  destruct (greedy_any s [] (after_name s)) as [[s' cs]|] eqn:Hg.
  - cbn. eauto.
  - apply greedy_any_last in Hg. rewrite after_name_eq, Hrest in Hg. discriminate.
Qed.

Lemma match_here_shape (s : string) (m : list string) :
  match_here elbDNS_re s = Some m -> exists whole name, m = [whole; name].
Proof.
  unfold match_here.
  destruct (rmatch elbDNS_re s [] (fun s' cs => Some (s', cs))) as [[s' cs]|];
    [|discriminate].
  cbn. intros [= <-]. eauto.
Qed.

Lemma find_has_group (s : string) :
  has_group s = true -> exists whole name, FindStringSubmatch elbDNS_re s = Some [whole; name].
Proof.
  induction s as [|c s IH]; intros H.
  - discriminate.
  - cbn [FindStringSubmatch].
    destruct (match_here elbDNS_re (String c s)) as [m|] eqn:Hm.
    + destruct (match_here_shape _ _ Hm) as (whole & name & ->). eauto.
    + cbn [has_group] in H. apply orb_true_iff in H as [H|H]; [|auto].
      destruct (match_here_group _ H) as (whole & name & Hsome). congruence.
Qed.

(** X1.  The Name Resolver returns a name exactly for the strings in which a
    dash followed by six digits occurs somewhere; for every other string it
    panics with an index out of range.  It never ends in [log.Fatal]. *)
Theorem elbNameFromElbDNS_returns_iff (h : string) :
  ((exists name, elbNameFromElbDNS h = Ok name) <-> has_group h = true) /\
  (elbNameFromElbDNS h = Panic IndexOutOfRange <-> has_group h = false) /\
  (forall err, elbNameFromElbDNS h <> Fatal err).
Proof.
  destruct (has_group h) eqn:Hg.
  - destruct (find_has_group _ Hg) as (whole & name & Hfind).
    assert (Hok : elbNameFromElbDNS h = Ok (TrimPrefix name "internal-")).
    { unfold elbNameFromElbDNS. now rewrite Hfind. }
    rewrite Hok. repeat split; try discriminate; eauto.
  - rewrite (elbName_no_group _ Hg). repeat split; try discriminate; auto.
    intros [name H]. discriminate.
Qed.

(** ** Metric Fetcher: data points and failures *)

(** X2.  When CloudWatch answers with at least one data point, the fetch
    returns the requested statistic of the first data point, whatever the
    other data points are; a statistic that the first data point does not
    carry, or a name other than Sum, Average, Maximum and Minimum, gives a
    nil pointer. *)
Theorem getElbMetric_first_datapoint
    (w : World) (elbName metricName statisticType : string)
    (out : GetMetricStatisticsOutput) (dp : Datapoint) (rest : list (option Datapoint)) :
  cw_GetMetricStatistics w (trailing_minute w elbName metricName statisticType)
    = (Some out, None) ->
  Datapoints out = Some dp :: rest ->
  getElbMetric w elbName metricName statisticType = Ok (statistic_of statisticType dp).
Proof.
  intros Hcw Hdps. rewrite getElbMetric_request, Hcw. cbn [fatal_on deref rbind].
  rewrite Hdps. cbn [length Nat.eqb index nth_error rbind]. unfold statistic_of.
  repeat (match goal with |- context [String.eqb ?a ?b] => destruct (String.eqb a b) end;
          [reflexivity|]).
  reflexivity.
Qed.

Lemma demo_world_answers :
  cw_GetMetricStatistics (demo_world 9)
    (trailing_minute (demo_world 9) "elb" "Latency" "Average")
  = (Some {| Datapoints := [Some {| Sum := Some 9%Q; Average := Some 9%Q;
                                    Maximum := Some 9%Q; Minimum := Some 9%Q |}] |}, None).
Proof. reflexivity. Qed.

Lemma getElbMetric_first_datapoint_witness :
  getElbMetric (demo_world 9) "elb" "Latency" "Average" = Ok (Some 9%Q).
Proof.
  exact (getElbMetric_first_datapoint (demo_world 9) "elb" "Latency" "Average" _ _ []
           demo_world_answers eq_refl).
Defined.

Lemma getElbMetric_error (w : World) (elbName metricName statisticType : string)
    (out : option GetMetricStatisticsOutput) (e : error) :
  cw_GetMetricStatistics w (trailing_minute w elbName metricName statisticType)
    = (out, Some e) ->
  getElbMetric w elbName metricName statisticType = Fatal e.
Proof. intros Hcw. rewrite getElbMetric_request, Hcw. reflexivity. Qed.

(** The body of a task once the name of the ELB is resolved. *)
Lemma getMetric_named (w : World) (m : elbMetric) (s : api_Service) (reg : Registry)
    (elbName : string) :
  service_elbName s = Some elbName ->
  getMetric w m s reg =
  (value <~ getElbMetric w elbName (MetricName m) (Statistic m) ;;
   md <~ deref (Metadata s) ;;
   value <~ deref value ;;
   Prometheus m elbName (Name md) (Namespace md) value reg).
Proof.
  unfold service_elbName, service_hostname, service_ingress, getMetric.
  intros H.
  destruct (Status s) as [status|]; [|discriminate]. cbn [deref rbind].
  destruct (LoadBalancer status) as [lb|]; [|discriminate]. cbn [deref rbind].
  destruct (Ingress lb) as [|[ingress|] rest]; try discriminate.
  cbn [index nth_error deref rbind].
  destruct (Hostname ingress) as [h|]; [|discriminate]. cbn [deref rbind].
  destruct (elbNameFromElbDNS h) as [elb| |]; try discriminate. cbn [rbind].
  now injection H as ->.
Qed.

Lemma getMetric_resolved (w : World) (m : elbMetric) (s : api_Service) (reg : Registry)
    (elbName svcName ns : string) :
  service_labels s = Some [elbName; svcName; ns] ->
  getMetric w m s reg =
  (value <~ getElbMetric w elbName (MetricName m) (Statistic m) ;;
   value <~ deref value ;;
   Prometheus m elbName (Some svcName) (Some ns) value reg).
Proof.
  unfold service_labels. intros H.
  destruct (service_elbName s) as [elb|] eqn:Helb; [|discriminate].
  rewrite (getMetric_named _ _ _ _ _ Helb).
  destruct (Metadata s) as [md|]; [|discriminate]. cbn [deref rbind].
  destruct (Name md) as [n|]; [|discriminate].
  destruct (Namespace md) as [n'|]; [|discriminate].
  injection H as -> -> ->.
  destruct (getElbMetric w elbName (MetricName m) (Statistic m)); reflexivity.
Qed.

(** A task that cannot succeed keeps the cycle from returning, whatever
    the schedule. *)
Lemma faulty_task_blocks_cycle
    (w : World) (reg : Registry) (services : list api_Service)
    (m : elbMetric) (s : api_Service) (sched : list action) (st : cycle_state) :
  In m metrics -> In s services ->
  (forall r r', getMetric w m s r <> Ok r') ->
  run w sched (cycle_start reg services) = Some st ->
  c_returned st = false.
Proof.
  intros Hm Hs Hfaulty Hrun.
  destruct (c_returned st) eqn:Hret; [exfalso|reflexivity].
  pose proof (cycle_inv_run _ _ _ _ _ _ (cycle_inv_start w reg services) Hrun) as Hinv.
  destruct (cycle_inv_returned _ _ _ _ Hinv Hret) as (Hperm & _ & _ & _ & _ & Hbodies).
  assert (Hin : In (m, s) (c_ran st)).
  { eapply Permutation_in; [symmetry; exact Hperm|]. now apply in_fanout. }
  destruct (run_bodies_ok_In _ _ _ _ _ Hbodies Hin) as (r & r' & Hok).
  exact (Hfaulty _ _ Hok).
Qed.

(** X3.  One failed call of CloudWatch is fatal for the whole process: when
    the request for one metric of the catalog for one discovered service,
    whose hostname resolves, is answered with an error, the task of this
    pair ends in [log.Fatal] with that error, whatever the exported metric
    set holds and whatever the other requests are answered, and the cycle
    never returns, under any schedule. *)
Theorem backend_error_aborts_cycle
    (w : World) (reg : Registry) (services : list api_Service)
    (m : elbMetric) (s : api_Service) (elbName : string)
    (out : option GetMetricStatisticsOutput) (e : error) :
  In m metrics ->
  In s services ->
  service_elbName s = Some elbName ->
  cw_GetMetricStatistics w
    (trailing_minute w elbName (MetricName m) (Statistic m)) = (out, Some e) ->
  (forall r, getMetric w m s r = Fatal e) /\
  (forall sched st, run w sched (cycle_start reg services) = Some st ->
                    c_returned st = false).
Proof.
  intros Hm Hs Helb Hcw.
  assert (Hfatal : forall r, getMetric w m s r = Fatal e).
  { intros r. rewrite (getMetric_named _ _ _ _ _ Helb).
    now rewrite (getElbMetric_error _ _ _ _ _ _ Hcw). }
  split; [exact Hfatal|].
  intros sched st. apply faulty_task_blocks_cycle with m s; try assumption.
  intros r r'. rewrite Hfatal. discriminate.
Qed.

(** In a world in which only the requests for Latency fail, the other
    twelve tasks of the service succeed, the task of Latency ends the
    process and no schedule lets the cycle return. *)
Lemma backend_error_aborts_cycle_witness :
  (forall m, In m metrics -> MetricName m <> "Latency" ->
             is_ok (getMetric (flaky_world "Latency" 1) m demo_service init) = true) /\
  (exists m, In m metrics /\ MetricName m = "Latency" /\
             forall r, getMetric (flaky_world "Latency" 1) m demo_service r
                       = Fatal "Throttling: Rate exceeded") /\
  (forall sched st,
     run (flaky_world "Latency" 1) sched (cycle_start init [demo_service]) = Some st ->
     c_returned st = false).
Proof.
  split.
  - intros m Hm Hname. unfold metrics in Hm.
    repeat (destruct Hm as [<-|Hm]); try contradiction; reflexivity.
  - destruct (catalog_entry "Latency" "Average") as (m & Hm & Hname & Hstat);
      [vm_compute; tauto|].
    destruct (backend_error_aborts_cycle (flaky_world "Latency" 1) init [demo_service]
                m demo_service "a8280213c611d114o7340onc0d34252" None
                "Throttling: Rate exceeded" Hm (or_introl eq_refl)) as [Hfatal Hblocked].
    + reflexivity.
    + rewrite Hname, Hstat. reflexivity.
    + split; [|exact Hblocked]. exists m. auto.
Defined.

(** ** Service Discovery: the kubeconfig and the listings *)

Lemma loadClient_path (w : World) :
  loadClient w =
  (let '(data, err) := ioutil_ReadFile w (kubeconfigPath w) in
   match err with
   | Some e => (None, Some ("read kubeconfig: " +:+ e))
   | None =>
       let '(config, err) := yaml_Unmarshal w data in
       match err with
       | Some e => (None, Some ("unmarshal kubeconfig: " +:+ e))
       | None => k8s_NewClient w (ioutil_ReadFile w) config
       end
   end).
Proof.
  unfold loadClient, kubeconfigPath.
  now destruct (String.eqb (os_Getenv w "URD_KUBECONFIG_PATH") "").
Qed.

(** X4.  When the kubeconfig cannot be read or cannot be parsed, discovery
    ends the process with [log.Fatal] and the message that names the step:
    the text "read kubeconfig: " or "unmarshal kubeconfig: " followed by the
    error; no client is built. *)
Theorem getAllServices_kubeconfig_error (w : World) (msg : error) :
  (exists data e,
      ioutil_ReadFile w (kubeconfigPath w) = (data, Some e) /\
      msg = "read kubeconfig: " +:+ e) \/
  (exists data config e,
      ioutil_ReadFile w (kubeconfigPath w) = (data, None) /\
      yaml_Unmarshal w data = (config, Some e) /\
      msg = "unmarshal kubeconfig: " +:+ e) ->
  loadClient w = (None, Some msg) /\ getAllServices w = Fatal msg.
Proof.
  intros H.
  assert (Hload : loadClient w = (None, Some msg)).
  { rewrite loadClient_path.
    destruct H as [(data & e & -> & ->)|(data & config & e & -> & -> & ->)]; reflexivity. }
  split; [exact Hload|]. now apply getAllServices_loadClient_error with None.
Qed.

Lemma getAllServices_kubeconfig_error_witness :
  loadClient (env_world "not: [yaml" (Some "yaml: line 1: did not find expected ']'"))
    = (None, Some "unmarshal kubeconfig: yaml: line 1: did not find expected ']'") /\
  getAllServices (env_world "not: [yaml" (Some "yaml: line 1: did not find expected ']'"))
    = Fatal "unmarshal kubeconfig: yaml: line 1: did not find expected ']'".
Proof.
  apply (getAllServices_kubeconfig_error
           (env_world "not: [yaml" (Some "yaml: line 1: did not find expected ']'"))).
  right. exists "not: [yaml", {| config_data := "not: [yaml" |},
           "yaml: line 1: did not find expected ']'".
  repeat split.
Defined.

Lemma range_namespaces_app
    (client : k8s_Client) (pre rest : list (option api_Namespace)) (acc : list api_Service) :
  Forall (complete_listing client) pre ->
  range_namespaces client (pre ++ rest) acc =
  range_namespaces client rest (acc ++ all_load_balanced client pre).
Proof.
  intros Hall. revert acc. induction Hall as [|ns pre [items [Hitems Hcomplete]] _ IH]; intros acc.
  - cbn. now rewrite app_nil_r.
  - unfold all_load_balanced. cbn [flat_map app]. rewrite Hitems.
    unfold listed_services in Hitems.
    destruct (namespace_name ns) as [name|] eqn:Hname; [|discriminate].
    destruct ns as [[[[n ?]|]]|]; simpl in Hname; try discriminate. subst n.
    cbn [range_namespaces deref rbind ns_Metadata Name].
    destruct (ListServices client name) as [[sl|] [e|]]; try discriminate.
    injection Hitems as <-.
    cbn [fatal_on deref rbind]. rewrite (range_services_complete _ _ Hcomplete).
    cbn [rbind]. rewrite IH, <- app_assoc. reflexivity.
Qed.

(** X6.  When the listing of the services of one namespace fails, discovery
    ends the process with [log.Fatal] and that error, also when the
    namespaces listed before it held load-balanced services: no partial
    result is returned. *)
Theorem getAllServices_ListServices_error
    (w : World) (client : k8s_Client) (nsl : NamespaceList)
    (pre rest : list (option api_Namespace)) (ns : option api_Namespace)
    (name : string) (sl : option ServiceList) (nserr : option error) (e : error) :
  loadClient w = (Some client, None) ->
  ListNamespaces client = (Some nsl, nserr) ->
  ns_Items nsl = pre ++ ns :: rest ->
  Forall (complete_listing client) pre ->
  namespace_name ns = Some name ->
  ListServices client name = (sl, Some e) ->
  getAllServices w = Fatal e.
Proof.
  intros Hload Hlist Hitems Hpre Hname Hsvc.
  unfold getAllServices. rewrite Hload. cbn [fatal_on deref rbind]. rewrite Hlist.
  cbn [deref rbind]. rewrite Hitems, (range_namespaces_app _ _ _ _ Hpre).
  now rewrite (range_namespaces_ListServices_error _ _ _ _ _ _ _ Hname Hsvc).
Qed.

Lemma getAllServices_ListServices_error_witness :
  getAllServices (demo_world_with half_listing_client []) = Fatal "services is forbidden".
Proof.
  apply (getAllServices_ListServices_error (demo_world_with half_listing_client [])
           half_listing_client
           {| ns_Items :=
                [Some {| ns_Metadata := Some {| Name := Some "default"; Namespace := None |} |};
                 Some {| ns_Metadata := Some {| Name := Some "kube-system"; Namespace := None |} |}] |}
           [Some {| ns_Metadata := Some {| Name := Some "default"; Namespace := None |} |}]
           []
           (Some {| ns_Metadata := Some {| Name := Some "kube-system"; Namespace := None |} |})
           "kube-system" None None "services is forbidden");
    try reflexivity.
  repeat constructor. exists [Some demo_service]. split; [reflexivity|].
  repeat constructor. eexists. split; [reflexivity|discriminate].
Defined.

(** ** Collection Cycle: when tasks succeed, and what a cycle computes *)

Lemma Counter_Add_nonneg (names lvs : list string) (v : Q) (vec : gmap (list string) Q) :
  length lvs = length names -> (0 <= v)%Q ->
  Counter_Add names lvs v vec = Ok (<[lvs := (default 0%Q (vec !! lvs) + v)%Q]> vec).
Proof.
  intros Hlen Hv. unfold Counter_Add, WithLabelValues.
  rewrite Hlen, Nat.eqb_refl. cbn [rbind].
  assert (Hnot : Qltb v 0 = false).
  { unfold Qltb. apply negb_false_iff. now apply Qle_bool_iff. }
  now rewrite Hnot.
Qed.

Lemma sink_succeeds (m : elbMetric) (elbName svcName ns : string) (v : Q) (reg : Registry)
    (f : family) (pre : list string) :
  In m metrics ->
  entry_series (MetricName m) = Some (f, pre) ->
  (is_counter f = true -> (0 <= v)%Q) ->
  exists reg', Prometheus m elbName (Some svcName) (Some ns) v reg = Ok reg'.
Proof.
  intros Hin Hentry Hpos. unfold metrics in Hin.
  repeat (destruct Hin as [<-|Hin]); [..|contradiction];
    cbn in Hentry; injection Hentry as <- <-;
    cbn [Prometheus deref rbind];
    try (rewrite Counter_Add_nonneg by (first [reflexivity|exact (Hpos eq_refl)]));
    cbn [rbind]; eauto.
Qed.

Lemma service_labels_inv (s : api_Service) (labels : list string) :
  service_labels s = Some labels ->
  exists elbName svcName ns,
    labels = [elbName; svcName; ns] /\ service_elbName s = Some elbName.
Proof.
  unfold service_labels.
  destruct (service_elbName s) as [elbName|]; [|discriminate].
  destruct (Metadata s) as [md|]; [|discriminate].
  destruct (Name md) as [svcName|]; [|discriminate].
  destruct (Namespace md) as [ns|]; [|discriminate].
  intros [= <-]. eauto 6.
Qed.

Lemma task_ok_succeeds (w : World) (m : elbMetric) (s : api_Service) (reg : Registry) :
  In m metrics -> task_ok w (m, s) -> exists reg', getMetric w m s reg = Ok reg'.
Proof.
  intros Hm (key & v & Hkey & Hv & Hpos).
  unfold task_series in Hkey. cbn [fst snd] in Hkey.
  destruct (entry_series (MetricName m)) as [[f pre]|] eqn:Hentry; [|discriminate].
  destruct (service_labels s) as [labels|] eqn:Hlabels; [|discriminate].
  injection Hkey as <-. cbn [fst] in Hpos.
  destruct (service_labels_inv _ _ Hlabels) as (elbName & svcName & ns & -> & Helb).
  rewrite (getMetric_resolved _ _ _ _ _ _ _ Hlabels).
  unfold task_value in Hv. cbn [fst snd] in Hv. rewrite Helb in Hv.
  destruct (getElbMetric w elbName (MetricName m) (Statistic m)) as [[v'|]| |];
    try discriminate.
  injection Hv as ->. cbn [deref rbind].
  now apply sink_succeeds with f pre.
Qed.

(** X7.  A task of the catalog returns exactly when the labels of its
    service resolve (hostname with a numeric group, name and namespace
    present), CloudWatch yields a sample for its request, and the sample is
    not negative if the entry adds it to a counter; in every other case the
    task ends the process.  The exported metric set plays no part in it. *)
Theorem getMetric_succeeds_iff (w : World) (m : elbMetric) (s : api_Service) (reg : Registry) :
  In m metrics ->
  ((exists reg', getMetric w m s reg = Ok reg') <-> task_ok w (m, s)).
Proof.
  intros Hm. split.
  - intros [reg' Hbody].
    destruct (task_effect _ _ _ _ _ Hm Hbody) as (key & v & Hkey & Hv & Hpos & _).
    exists key, v. auto.
  - now apply task_ok_succeeds.
Qed.

Lemma getMetric_succeeds_iff_witness :
  exists m, catalog_entry_named "Latency" = Some m /\
            ((exists reg', getMetric (demo_world 1) m demo_service init = Ok reg') <->
             task_ok (demo_world 1) (m, demo_service)).
Proof.
  eexists. split; [reflexivity|].
  apply getMetric_succeeds_iff. do 8 right. left. reflexivity.
Defined.

(** X8.  Whatever the schedule, a cycle that returns has computed what its
    S×K task bodies compute when they run one after the other in some
    order: the exported metric set after the cycle is the result of running
    a permutation of the fan-out sequentially. *)
Theorem collectMetrics_serialisable
    (w : World) (reg : Registry) (services : list api_Service)
    (sched : list action) (st : cycle_state) :
  run w sched (cycle_start reg services) = Some st ->
  c_returned st = true ->
  exists order,
    Permutation order (fanout services) /\ run_bodies w order reg = Ok (c_reg st).
Proof.
  intros Hrun Hret.
  pose proof (cycle_inv_run _ _ _ _ _ _ (cycle_inv_start w reg services) Hrun) as Hinv.
  destruct (cycle_inv_returned _ _ _ _ Hinv Hret) as (Hperm & _ & _ & _ & _ & Hbodies).
  exists (c_ran st). auto.
Qed.

Lemma cycle_returns_demo :
  exists st, run (demo_world 1) (sequential 13) (cycle_start init [demo_service]) = Some st /\
             c_returned st = true.
Proof.
  assert (Hok : is_ok (run_bodies (demo_world 1) (fanout [demo_service]) init) = true)
    by (vm_compute; reflexivity).
  destruct (is_ok_inv _ Hok) as [reg' Hbodies].
  eexists. split; [exact (sequential_returns _ _ _ _ Hbodies)|reflexivity].
Qed.

Lemma collectMetrics_serialisable_witness :
  exists st order,
    run (demo_world 1) (sequential 13) (cycle_start init [demo_service]) = Some st /\
    Permutation order (fanout [demo_service]) /\
    run_bodies (demo_world 1) order init = Ok (c_reg st).
Proof.
  destruct cycle_returns_demo as (st & Hrun & Hret).
  destruct (collectMetrics_serialisable _ _ _ _ _ Hrun Hret) as (order & Hperm & Hbodies).
  exists st, order. auto.
Defined.

Lemma series_inj_observations (o1 o2 : option (list Q)) :
  option_map Observations o1 = option_map Observations o2 -> o1 = o2.
Proof. destruct o1, o2; simpl; congruence. Qed.

(** Two registries with the same series are the same registry. *)
Lemma registry_ext (r1 r2 : Registry) :
  (forall key, series key r1 = series key r2) -> r1 = r2.
Proof.
  intros H. destruct r1, r2.
  f_equal; apply map_eq; intros lvs.
  - apply series_inj_scalar. exact (H (FHttpRequestsTotal, lvs)).
  - apply series_inj_scalar. exact (H (FBackendConnectionsErrors, lvs)).
  - apply series_inj_scalar. exact (H (FHealthyHostCount, lvs)).
  - apply series_inj_observations. exact (H (FElbLatency, lvs)).
  - apply series_inj_scalar. exact (H (FRequestCount, lvs)).
  - apply series_inj_scalar. exact (H (FSpilloverCount, lvs)).
  - apply series_inj_scalar. exact (H (FSurgeQueueLength, lvs)).
  - apply series_inj_scalar. exact (H (FUnhealthyHostCount, lvs)).
Qed.

(** X9.  The exported metric set after a cycle does not depend on the
    schedule of the goroutines: when the discovered services have distinct
    labels, two runs of the cycle from the same state that both return
    leave the same registry. *)
Theorem collectMetrics_schedule_independent
    (w : World) (reg : Registry) (services : list api_Service)
    (sched1 sched2 : list action) (st1 st2 : cycle_state) :
  NoDup (map service_labels services) ->
  run w sched1 (cycle_start reg services) = Some st1 -> c_returned st1 = true ->
  run w sched2 (cycle_start reg services) = Some st2 -> c_returned st2 = true ->
  c_reg st1 = c_reg st2.
Proof.
  intros Hnd Hrun1 Hret1 Hrun2 Hret2. apply registry_ext. intros key.
  destruct (decide (Exists (fun t => task_series t = Some key) (fanout services)))
    as [Hex|Hnone].
  - apply List.Exists_exists in Hex as ([m s] & Hin & Hkey).
    pose proof Hin as Hin'. apply in_fanout in Hin' as [Hm Hs].
    destruct (cycle_series _ _ _ _ _ m s key Hrun1 Hret1 Hnd Hm Hs Hkey)
      as (v1 & Hv1 & _ & H1).
    destruct (cycle_series _ _ _ _ _ m s key Hrun2 Hret2 Hnd Hm Hs Hkey)
      as (v2 & Hv2 & _ & H2).
    rewrite H1, H2. congruence.
  - assert (Hother : forall t, In t (fanout services) -> task_series t <> Some key).
    { intros t Hin Hkey. apply Hnone, List.Exists_exists. eauto. }
    rewrite (run_frame _ _ _ _ _ _ Hrun1 Hother).
    now rewrite (run_frame _ _ _ _ _ _ Hrun2 Hother).
Qed.

Lemma returns_inv (w : World) (sched : list action) (st : cycle_state) :
  returns w sched st = true -> exists st', run w sched st = Some st' /\ c_returned st' = true.
Proof.
  unfold returns. destruct (run w sched st) as [st'|]; [eauto|discriminate].
Qed.

Lemma collectMetrics_schedule_independent_witness :
  exists st1 st2,
    run (demo_world 1) (sequential 13) (cycle_start init [demo_service]) = Some st1 /\
    run (demo_world 1) (reversed 13) (cycle_start init [demo_service]) = Some st2 /\
    c_reg st1 = c_reg st2.
Proof.
  assert (H1 : returns (demo_world 1) (sequential 13) (cycle_start init [demo_service]) = true)
    by (vm_compute; reflexivity).
  assert (H2 : returns (demo_world 1) (reversed 13) (cycle_start init [demo_service]) = true)
    by (vm_compute; reflexivity).
  destruct (returns_inv _ _ _ H1) as (st1 & Hrun1 & Hret1).
  destruct (returns_inv _ _ _ H2) as (st2 & Hrun2 & Hret2).
  exists st1, st2. split; [exact Hrun1|]. split; [exact Hrun2|].
  apply (collectMetrics_schedule_independent (demo_world 1) init [demo_service]
           (sequential 13) (reversed 13)); try assumption.
  apply NoDup_singleton.
Defined.

Lemma task_keeps_series (w : World) (m : elbMetric) (s : api_Service) (reg reg' : Registry)
    (key : family * list string) :
  In m metrics -> getMetric w m s reg = Ok reg' ->
  series key reg <> None -> series key reg' <> None.
Proof.
  intros Hm Hbody Hsome.
  destruct (task_effect _ _ _ _ _ Hm Hbody) as (k & v & _ & _ & _ & Hwrite & Hframe).
  destruct (decide (key = k)) as [->|Hne].
  - rewrite Hwrite. discriminate.
  - now rewrite (Hframe _ Hne).
Qed.

Lemma bodies_keep_series (w : World) (ts : list task) (reg reg' : Registry)
    (key : family * list string) :
  Forall (fun t => In (fst t) metrics) ts ->
  run_bodies w ts reg = Ok reg' ->
  series key reg <> None -> series key reg' <> None.
Proof.
  intros Hall. revert reg. induction Hall as [|[m s] ts Hm _ IH]; intros reg Hrun Hsome.
  - now injection Hrun as <-.
  - cbn [run_bodies] in Hrun. apply rbind_ok_inv in Hrun as [r1 [Hbody Hrest]].
    apply (IH _ Hrest). eapply task_keeps_series; eassumption.
Qed.

(** X10.  A cycle touches no series but those of its own tasks: in every
    state that it reaches, under any schedule, a series that is the series
    of no pair of a discovered service and a catalog entry holds what it
    held when the cycle began; and no series that existed is deleted. *)
Theorem cycle_frame
    (w : World) (reg : Registry) (services : list api_Service)
    (sched : list action) (st : cycle_state) (key : family * list string) :
  run w sched (cycle_start reg services) = Some st ->
  (forall t, In t (fanout services) -> task_series t <> Some key) ->
  series key (c_reg st) = series key reg /\
  (forall key', series key' reg <> None -> series key' (c_reg st) <> None).
Proof.
  intros Hrun Hother. split; [now apply run_frame with w services sched|].
  intros key' Hsome.
  pose proof (cycle_inv_run _ _ _ _ _ _ (cycle_inv_start w reg services) Hrun) as Hinv.
  pose proof (cycle_inv_ran_catalog _ _ _ _ Hinv) as Hcat.
  destruct Hinv as (_ & _ & _ & Hbodies & _).
  exact (bodies_keep_series _ _ _ _ _ Hcat Hbodies Hsome).
Qed.

Lemma cycle_frame_witness :
  exists st,
    run (demo_world 1) (sequential 13) (cycle_start init [demo_service]) = Some st /\
    series (FHealthyHostCount, ["gone"; "api"; "default"]) (c_reg st)
      = series (FHealthyHostCount, ["gone"; "api"; "default"]) init.
Proof.
  destruct cycle_returns_demo as (st & Hrun & _).
  exists st. split; [exact Hrun|].
  apply (cycle_frame _ _ _ _ _ _ Hrun).
  intros [m s] Hin. apply in_fanout in Hin as [_ [<-|[]]].
  unfold task_series. cbn [fst snd]. rewrite demo_service_labels.
  destruct (entry_series (MetricName m)) as [[f pre]|]; [|discriminate].
  intros [= _ Hlabels].
  apply (app_inj_2 pre [] demo_labels ["gone"; "api"; "default"] eq_refl) in Hlabels
    as [_ Hlabels].
  discriminate Hlabels.
Defined.

Lemma run_bodies_all_ok (w : World) (ts : list task) (reg : Registry) :
  Forall (fun t => In (fst t) metrics /\ task_ok w t) ts ->
  exists reg', run_bodies w ts reg = Ok reg'.
Proof.
  intros Hall. revert reg. induction Hall as [|[m s] ts [Hm Hok] _ IH]; intros reg.
  - exists reg. reflexivity.
  - cbn [run_bodies]. destruct (task_ok_succeeds w m s reg Hm Hok) as [r1 ->].
    cbn [rbind]. apply IH.
Qed.

(** X11.  When every pair of a discovered service and a catalog entry is
    free of faults (labels resolve, CloudWatch yields a sample, no negative
    sample for a counter), [collectMetrics] does return: the schedule that
    starts the S×K goroutines and runs them in turn ends with [wg.Wait]
    returning, the process alive and all S×K tasks done. *)
Theorem collectMetrics_returns
    (w : World) (reg : Registry) (services : list api_Service) :
  (forall t, In t (fanout services) -> task_ok w t) ->
  exists st,
    run w (sequential (length services * length metrics)) (cycle_start reg services) = Some st /\
    c_returned st = true /\ c_dead st = None /\ c_ran st = fanout services.
Proof.
  intros Hok.
  destruct (run_bodies_all_ok w (fanout services) reg) as [reg' Hbodies].
  { apply List.Forall_forall. intros [m s] Hin. split; [|now apply Hok].
    now apply in_fanout in Hin as [Hm _]. }
  rewrite <- length_fanout. eexists. split; [exact (sequential_returns _ _ _ _ Hbodies)|].
  repeat split.
Qed.

Lemma demo_task_ok (t : task) : In t (fanout [demo_service]) -> task_ok (demo_world 1) t.
Proof.
  intros Hin. unfold fanout in Hin. cbn [flat_map map app] in Hin.
  rewrite app_nil_r in Hin. unfold metrics in Hin. cbn [map] in Hin.
  repeat (destruct Hin as [<-|Hin]); [..|contradiction];
    (eexists; exists 1%Q; split; [vm_compute; reflexivity|];
     split; [vm_compute; reflexivity|]; intros _; discriminate).
Qed.

Lemma collectMetrics_returns_witness :
  exists st,
    run (demo_world 1) (sequential 13) (cycle_start init [demo_service]) = Some st /\
    c_returned st = true /\ c_dead st = None /\ c_ran st = fanout [demo_service].
Proof.
  exact (collectMetrics_returns (demo_world 1) init [demo_service] demo_task_ok).
Defined.

(** X12.  A cycle that discovers no service starts no goroutine: [wg.Wait]
    returns at once, and in every state the cycle reaches the exported
    metric set is the one it began with. *)
Theorem collectMetrics_no_services
    (w : World) (reg : Registry) (sched : list action) (st : cycle_state) :
  run w sched (cycle_start reg []) = Some st ->
  c_reg st = reg /\ c_ran st = [] /\ c_started st = [] /\
  returns w [ActWait] (cycle_start reg []) = true.
Proof.
  intros Hrun.
  pose proof (cycle_inv_run _ _ _ _ _ _ (cycle_inv_start w reg []) Hrun) as Hinv.
  destruct Hinv as ((issued & Hissued & Hperm) & _ & _ & Hbodies & _).
  change (fanout []) with (@nil task) in Hissued.
  apply app_eq_nil in Hissued as [-> _].
  apply Permutation_sym, Permutation_nil, app_eq_nil in Hperm as [Hran Hstarted].
  rewrite Hran in Hbodies. cbn [run_bodies] in Hbodies. injection Hbodies as <-.
  repeat split; assumption.
Qed.

Lemma collectMetrics_no_services_witness :
  exists st,
    run (demo_world 1) [ActWait] (cycle_start init []) = Some st /\
    c_reg st = init /\ c_ran st = [].
Proof.
  eexists. split; [reflexivity|].
  destruct (collectMetrics_no_services (demo_world 1) init [ActWait] _ eq_refl)
    as (Hreg & Hran & _).
  split; assumption.
Defined.

(** X13.  The counter of the WaitGroup is never negative: in every state a
    cycle reaches it is S×K minus the number of calls of [wg.Done] so far,
    at least zero, and a call of [wg.Done] never raises the panic of a
    negative counter. *)
Theorem WaitGroup_never_negative
    (w : World) (reg : Registry) (services : list api_Service)
    (sched : list action) (st : cycle_state) :
  run w sched (cycle_start reg services) = Some st ->
  (0 <= c_wg st)%Z /\
  c_wg st = (Z.of_nat (length services * length metrics) - Z.of_nat (c_exited st))%Z /\
  (forall st', step w ActDone st = Some st' ->
               c_dead st' = None /\ c_wg st' = (c_wg st - 1)%Z).
Proof.
  intros Hrun.
  pose proof (cycle_inv_run _ _ _ _ _ _ (cycle_inv_start w reg services) Hrun) as Hinv.
  destruct Hinv as ((issued & Hissued & Hperm) & Hwg & Hex & _ & _).
  assert (Hlen : (length (c_ran st) <= length (fanout services))%nat).
  { rewrite <- Hissued, length_app, <- (Permutation_length Hperm), length_app. lia. }
  rewrite <- length_fanout. split; [lia|]. split; [exact Hwg|].
  intros st' Hstep. unfold step in Hstep.
  destruct (c_dead st); [discriminate|]. destruct (c_returned st); [discriminate|].
  destruct (c_exited st <? length (c_ran st))%nat eqn:Hlt; [|discriminate].
  apply Nat.ltb_lt in Hlt.
  assert (Hpos : (c_wg st - 1 <? 0)%Z = false) by (apply Z.ltb_ge; lia).
  rewrite Hpos in Hstep. injection Hstep as <-. split; reflexivity.
Qed.

Lemma WaitGroup_never_negative_witness :
  exists st,
    run (demo_world 1) (repeat ActGo 13 ++ [ActBody 0; ActBody 0; ActDone])
      (cycle_start init [demo_service]) = Some st /\
    c_wg st = 12%Z.
Proof.
  assert (Hok : is_some (run (demo_world 1) (repeat ActGo 13 ++ [ActBody 0; ActBody 0; ActDone])
                           (cycle_start init [demo_service])) = true)
    by (vm_compute; reflexivity).
  destruct (is_some_inv _ Hok) as [st Hrun].
  exists st. split; [exact Hrun|].
  destruct (WaitGroup_never_negative _ _ _ _ _ Hrun) as (_ & Hwg & _).
  rewrite Hwg. clear Hwg Hok.
  assert (Hex : match run (demo_world 1) (repeat ActGo 13 ++ [ActBody 0; ActBody 0; ActDone])
                        (cycle_start init [demo_service]) with
                | Some st' => c_exited st'
                | None => 0%nat
                end = 1%nat) by (vm_compute; reflexivity).
  rewrite Hrun in Hex. rewrite Hex. reflexivity.
Defined.

(** ** Scheduler: many cycles *)

(** X14.  The loop does not make up for lateness.  Each sleep is computed
    from the beginning of its own iteration, so over any number of
    consecutive cycles that each take less than the period (and no negative
    time), each followed by some unmeasured lateness (a sleep that returns
    late, the statements around it), two cycles begin one period and this
    lateness apart, and after [n] iterations the clock stands [n] periods
    and all the lateness so far after the start. *)
Theorem main_loop_lateness_accumulates (cs : list (Cycle * Z)) (st st' : main_state) :
  main_loop_late cs st = Some st' ->
  Forall (fun cd => 0 <= cy_elapsed (fst cd) < time_Minute /\ 0 <= snd cd)%Z cs ->
  m_begins st' = m_begins st ++ late_begins (m_clock st) (map snd cs) /\
  m_clock st' =
    (m_clock st + Z.of_nat (length cs) * time_Minute + fold_right Z.add 0 (map snd cs))%Z /\
  (m_clock st + Z.of_nat (length cs) * time_Minute <= m_clock st')%Z.
Proof.
  intros Hloop Hall. revert st Hloop.
  induction Hall as [|[c d] cs [[Hpos Hlt] Hd] _ IH]; intros st Hloop;
    cbn [main_loop_late] in Hloop; cbn [fst snd] in *.
  - injection Hloop as <-. cbn. rewrite app_nil_r. repeat split; lia.
  - destruct (main_iteration c st) as [st1|] eqn:H1; [|discriminate].
    destruct (main_iteration_clock _ _ _ H1 Hpos) as (Hclock & Hbegins & _).
    destruct (IH _ Hloop) as (Hb & Hc & Hmin).
    cbn [late m_clock m_begins] in Hb, Hc, Hmin.
    assert (Hnext : (m_clock st1 + d = m_clock st + time_Minute + d)%Z) by lia.
    rewrite Hnext in Hb, Hc, Hmin.
    cbn [map snd length late_begins fold_right].
    rewrite Hb, Hc, Hbegins, <- app_assoc. cbn [app].
    repeat split; lia.
Qed.

(** Three cycles, the first two followed by 170000 and 5 nanoseconds of
    lateness: the third cycle begins 170005 nanoseconds after the second
    minute. *)
Lemma main_loop_lateness_accumulates_witness :
  exists st',
    main_loop_late [(demo_cycle 1 100, 170000); (demo_cycle 1 59000000000, 5);
                    (demo_cycle 1 0, 0)]%Z (main_start 7) = Some st' /\
    m_begins st' = [7; 60000170007; 120000170012]%Z.
Proof.
  assert (Hok : is_some (main_loop_late
                           [(demo_cycle 1 100, 170000); (demo_cycle 1 59000000000, 5);
                            (demo_cycle 1 0, 0)]%Z (main_start 7)) = true)
    by (vm_compute; reflexivity).
  destruct (is_some_inv _ Hok) as [st' Hloop].
  exists st'. split; [exact Hloop|].
  destruct (main_loop_lateness_accumulates _ _ _ Hloop) as (Hb & _).
  - repeat constructor; cbn; unfold time_Minute; lia.
  - rewrite Hb. reflexivity.
Defined.

(** ** Metric Catalog: where each statistic goes *)

Ltac http_case Hit Hfetch :=
  match type of Hfetch with
  | cycle_fetches _ (http_metric ?status) _ _ _ =>
      let name := eval vm_compute in (http_metric status) in
      change (http_metric status) with name in Hfetch;
      destruct (main_iteration_series _ _ _ _ _ _ _ FHttpRequestsTotal [status] Hit Hfetch)
        as [Hseries Hpos]; [vm_compute; tauto|reflexivity|]
  end.

(** X15.  The six HTTP status metrics share the vector
    urd_http_requests_total and are kept apart by the label [status]: after
    a cycle that discovers the service, the series of the status 2XX, 3XX,
    4XX, 5XX, ELB_4XX or ELB_5XX for the labels of the service has grown by
    exactly the Sum that CloudWatch answered for HTTPCode_Backend_2XX, ...,
    HTTPCode_ELB_5XX, and that Sum is not negative. *)
Theorem http_requests_by_status
    (c : Cycle) (st st' : main_state) (labels : list string) (status : string) (x : Q) :
  main_iteration c st = Some st' ->
  In status http_statuses ->
  cycle_fetches labels (http_metric status) "Sum" c x ->
  httpRequestsTotal (m_reg st') !! (status :: labels)
    = Some (default 0%Q (httpRequestsTotal (m_reg st) !! (status :: labels)) + x)%Q /\
  (0 <= x)%Q.
Proof.
  intros Hit Hstatus Hfetch. unfold http_statuses in Hstatus.
  repeat (destruct Hstatus as [<-|Hstatus]); [..|contradiction];
    http_case Hit Hfetch;
    (split; [|exact (Hpos eq_refl)]);
    unfold series, write in Hseries; cbn in Hseries;
    rewrite scalar_of_lookup in Hseries;
    match type of Hseries with
    | option_map Scalar ?o = _ => destruct o; now inversion Hseries
    end.
Qed.

Lemma http_requests_by_status_witness :
  exists st',
    main_iteration (demo_cycle 42 0) (main_start 0) = Some st' /\
    httpRequestsTotal (m_reg st') !! ("2XX" :: demo_labels) = Some (0 + 42)%Q.
Proof.
  assert (Hok : is_some (main_iteration (demo_cycle 42 0) (main_start 0)) = true)
    by (vm_compute; reflexivity).
  destruct (is_some_inv _ Hok) as [st' Hit].
  exists st'. split; [exact Hit|].
  destruct (http_requests_by_status (demo_cycle 42 0) (main_start 0) st' demo_labels "2XX" 42 Hit)
    as [Hseries _].
  - left. reflexivity.
  - apply demo_cycle_fetches. left. reflexivity.
  - exact Hseries.
Defined.

(** X16.  The Sums of BackendConnectionErrors, RequestCount and
    SpilloverCount are added, each to the series of its own counter vector
    for the labels of the service: after a cycle that discovers the service
    each of the three series has grown by exactly the Sum of its metric. *)
Theorem plain_counters_add
    (c : Cycle) (st st' : main_state) (labels : list string) (errors requests spilled : Q) :
  main_iteration c st = Some st' ->
  cycle_fetches labels "BackendConnectionErrors" "Sum" c errors ->
  cycle_fetches labels "RequestCount" "Sum" c requests ->
  cycle_fetches labels "SpilloverCount" "Sum" c spilled ->
  backendConnectionsErrors (m_reg st') !! labels
    = Some (default 0%Q (backendConnectionsErrors (m_reg st) !! labels) + errors)%Q /\
  requestCount (m_reg st') !! labels
    = Some (default 0%Q (requestCount (m_reg st) !! labels) + requests)%Q /\
  spilloverCount (m_reg st') !! labels
    = Some (default 0%Q (spilloverCount (m_reg st) !! labels) + spilled)%Q.
Proof.
  intros Hit He Hr Hs.
  destruct (main_iteration_series _ _ _ _ _ _ _ FBackendConnectionsErrors [] Hit He)
    as [H1 _]; [vm_compute; tauto|reflexivity|].
  destruct (main_iteration_series _ _ _ _ _ _ _ FRequestCount [] Hit Hr)
    as [H2 _]; [vm_compute; tauto|reflexivity|].
  destruct (main_iteration_series _ _ _ _ _ _ _ FSpilloverCount [] Hit Hs)
    as [H3 _]; [vm_compute; tauto|reflexivity|].
  unfold series, write in H1, H2, H3. cbn in H1, H2, H3.
  rewrite scalar_of_lookup in H1, H2, H3.
  split; [|split].
  - destruct (backendConnectionsErrors (m_reg st') !! labels); now inversion H1.
  - destruct (requestCount (m_reg st') !! labels); now inversion H2.
  - destruct (spilloverCount (m_reg st') !! labels); now inversion H3.
Qed.

Lemma plain_counters_add_witness :
  exists st',
    main_iteration (demo_cycle 5 0) (main_start 0) = Some st' /\
    requestCount (m_reg st') !! demo_labels = Some (0 + 5)%Q.
Proof.
  assert (Hok : is_some (main_iteration (demo_cycle 5 0) (main_start 0)) = true)
    by (vm_compute; reflexivity).
  destruct (is_some_inv _ Hok) as [st' Hit].
  exists st'. split; [exact Hit|].
  destruct (plain_counters_add (demo_cycle 5 0) (main_start 0) st' demo_labels 5 5 5 Hit)
    as (_ & Hrequests & _);
    try (apply demo_cycle_fetches; left; reflexivity).
  exact Hrequests.
Defined.

(** X17.  The Average of Latency is observed by the histogram
    urd_average_elb_latency: after a cycle that discovers the service, the
    series of its labels holds one observation more, the average of this
    cycle, after the observations of the earlier cycles. *)
Theorem latency_observed
    (c : Cycle) (st st' : main_state) (labels : list string) (average : Q) :
  main_iteration c st = Some st' ->
  cycle_fetches labels "Latency" "Average" c average ->
  elbLatency (m_reg st') !! labels
    = Some (default [] (elbLatency (m_reg st) !! labels) ++ [average]).
Proof.
  intros Hit Hfetch.
  destruct (main_iteration_series _ _ _ _ _ _ _ FElbLatency [] Hit Hfetch)
    as [H _]; [vm_compute; tauto|reflexivity|].
  unfold series, write in H. cbn in H. rewrite observations_of_lookup in H.
  destruct (elbLatency (m_reg st') !! labels); now inversion H.
Qed.

Lemma latency_observed_witness :
  exists st',
    main_loop [demo_cycle 3 0; demo_cycle 4 0] (main_start 0) = Some st' /\
    elbLatency (m_reg st') !! demo_labels = Some [3; 4]%Q.
Proof.
  assert (Hok : is_some (main_loop [demo_cycle 3 0; demo_cycle 4 0] (main_start 0)) = true)
    by (vm_compute; reflexivity).
  destruct (is_some_inv _ Hok) as [st' Hloop].
  exists st'. split; [exact Hloop|].
  destruct (main_loop_two _ _ _ _ Hloop) as (st1 & H1 & H2).
  rewrite (latency_observed _ _ _ demo_labels 4 H2)
    by (apply demo_cycle_fetches; right; left; reflexivity).
  rewrite (latency_observed _ _ _ demo_labels 3 H1)
    by (apply demo_cycle_fetches; right; left; reflexivity).
  reflexivity.
Defined.

(** ** Exported Metric Set: services that are gone *)

Lemma main_iteration_misses
    (c : Cycle) (st st' : main_state) (labels : list string) (f : family) (pre : list string) :
  main_iteration c st = Some st' ->
  cycle_misses labels c ->
  length labels = 3%nat ->
  series (f, pre ++ labels) (m_reg st') = series (f, pre ++ labels) (m_reg st).
Proof.
  intros Hit (services & Hdisc & Hmiss) Hlen.
  destruct (main_iteration_inv _ _ _ Hit) as (services' & cst & Hdisc' & Hrun & _ & ->).
  assert (services' = services) as -> by congruence.
  apply (run_frame _ _ _ _ _ _ Hrun).
  intros [m s] Hin Hkey. apply in_fanout in Hin as [_ Hs].
  unfold task_series in Hkey. cbn [fst snd] in Hkey.
  destruct (entry_series (MetricName m)) as [[f' pre']|]; [|discriminate].
  destruct (service_labels s) as [labels'|] eqn:Hlabels; [|discriminate].
  injection Hkey as _ Happ.
  destruct (service_labels_inv _ _ Hlabels) as (e & n & ns & Heq & _).
  apply app_inj_2 in Happ as [_ ->]; [|rewrite Heq, Hlen; reflexivity].
  exact (Hmiss s Hs Hlabels).
Qed.

(** X18.  The series of a service that is no longer discovered stay as they
    are: over any number of cycles none of which discovers a service with
    the labels [labels], every series of every vector for these labels,
    gauges included, keeps the value it had, and is never reset or
    removed. *)
Theorem undiscovered_series_kept
    (cs : list Cycle) (st st' : main_state) (labels : list string) :
  main_loop cs st = Some st' ->
  Forall (cycle_misses labels) cs ->
  length labels = 3%nat ->
  (forall f pre, series (f, pre ++ labels) (m_reg st') = series (f, pre ++ labels) (m_reg st)) /\
  healthyHostCount (m_reg st') !! labels = healthyHostCount (m_reg st) !! labels /\
  unhealthyHostCount (m_reg st') !! labels = unhealthyHostCount (m_reg st) !! labels.
Proof.
  intros Hloop Hall Hlen.
  assert (Hseries : forall f pre,
             series (f, pre ++ labels) (m_reg st') = series (f, pre ++ labels) (m_reg st)).
  { revert st Hloop. induction Hall as [|c cs Hc _ IH]; intros st Hloop f pre.
    - cbn [main_loop] in Hloop. now injection Hloop as <-.
    - destruct (main_loop_cons _ _ _ _ Hloop) as (st1 & H1 & Hrest).
      rewrite (IH _ Hrest). now apply main_iteration_misses with c. }
  split; [exact Hseries|]. split; apply series_inj_scalar.
  - exact (Hseries FHealthyHostCount []).
  - exact (Hseries FUnhealthyHostCount []).
Qed.

Lemma undiscovered_series_kept_witness :
  exists st',
    main_loop [demo_cycle 7 0; gone_cycle; gone_cycle] (main_start 0) = Some st' /\
    healthyHostCount (m_reg st') !! demo_labels = Some 7%Q.
Proof.
  assert (Hok : is_some (main_loop [demo_cycle 7 0; gone_cycle; gone_cycle] (main_start 0)) = true)
    by (vm_compute; reflexivity).
  destruct (is_some_inv _ Hok) as [st' Hloop].
  exists st'. split; [exact Hloop|].
  destruct (main_loop_cons _ _ _ _ Hloop) as (st1 & H1 & Hrest).
  destruct (undiscovered_series_kept [gone_cycle; gone_cycle] st1 st' demo_labels Hrest)
    as (_ & Hhealthy & _).
  - repeat constructor; exact gone_cycle_misses.
  - reflexivity.
  - rewrite Hhealthy.
    destruct (main_iteration_series _ _ _ demo_labels "HealthyHostCount" "Average" 7
                FHealthyHostCount [] H1) as [Hseries _].
    + apply demo_cycle_fetches. right. left. reflexivity.
    + vm_compute. tauto.
    + reflexivity.
    + unfold series, write in Hseries. cbn in Hseries.
      destruct (healthyHostCount (m_reg st1) !! demo_labels); now inversion Hseries.
Defined.

(** ** Collection Cycle: how a task can end the process *)

Lemma elbName_panic (h : string) (e : runtime_error) :
  elbNameFromElbDNS h = Panic e -> e = IndexOutOfRange.
Proof.
  destruct (has_group h) eqn:Hg.
  - destruct (find_has_group _ Hg) as (whole & name & Hfind).
    unfold elbNameFromElbDNS. rewrite Hfind. discriminate.
  - rewrite (elbName_no_group _ Hg). now intros [= <-].
Qed.

Lemma elbName_not_fatal (h : string) (err : error) : elbNameFromElbDNS h <> Fatal err.
Proof.
  destruct (has_group h) eqn:Hg.
  - destruct (find_has_group _ Hg) as (whole & name & Hfind).
    unfold elbNameFromElbDNS. rewrite Hfind. discriminate.
  - rewrite (elbName_no_group _ Hg). discriminate.
Qed.

Lemma getElbMetric_failure (w : World) (elbName metricName statisticType : string) :
  (forall e, getElbMetric w elbName metricName statisticType = Panic e -> e = NilDereference) /\
  (forall err, getElbMetric w elbName metricName statisticType = Fatal err ->
               exists out, cw_GetMetricStatistics w
                             (trailing_minute w elbName metricName statisticType)
                           = (out, Some err)).
Proof.
  rewrite getElbMetric_request.
  destruct (cw_GetMetricStatistics w (trailing_minute w elbName metricName statisticType))
    as [data [err0|]].
  - cbn [fatal_on rbind]. split; [discriminate|]. intros err [= <-]. eauto.
  - cbn [fatal_on rbind]. destruct data as [data|]; cbn [deref rbind].
    + destruct (Datapoints data) as [|dp dps]; cbn [length Nat.eqb index nth_error rbind].
      * split; discriminate.
      * repeat match goal with
               | |- context [if String.eqb ?a ?b then _ else _] => destruct (String.eqb a b)
               end;
          destruct dp; cbn [deref rbind]; split; try discriminate; now intros e [= <-].
    + split; [now intros e [= <-]|discriminate].
Qed.

Lemma sink_failure (m : elbMetric) (elbName : string) (svcName ns : option string)
    (v : Q) (reg : Registry) :
  In m metrics ->
  (forall e, Prometheus m elbName svcName ns v reg = Panic e ->
             e = NilDereference \/ e = CounterDecrease) /\
  (forall err, Prometheus m elbName svcName ns v reg <> Fatal err).
Proof.
  intros Hin. unfold metrics in Hin.
  repeat (destruct Hin as [<-|Hin]); [..|contradiction];
    cbn [Prometheus]; destruct svcName, ns; cbn [deref rbind];
    unfold Counter_Add, Gauge_Set, Histogram_Observe, WithLabelValues; cbn;
    try destruct (Qltb v 0); cbn;
    (split; [intros e [= <-]; auto|discriminate]) || (split; discriminate).
Qed.

(** X19.  A task of the catalog can end the process in these ways only: a
    panic for a nil pointer, for an index out of range or for a counter
    that would decrease, or [log.Fatal] with the error of a CloudWatch
    call.  In particular the number of label values never disagrees with
    the label names that [init] declares. *)
Theorem task_failure_modes (w : World) (m : elbMetric) (s : api_Service) (reg : Registry) :
  In m metrics ->
  (forall e, getMetric w m s reg = Panic e ->
             e = NilDereference \/ e = IndexOutOfRange \/ e = CounterDecrease) /\
  (forall err, getMetric w m s reg = Fatal err ->
               exists elbName out,
                 cw_GetMetricStatistics w
                   (trailing_minute w elbName (MetricName m) (Statistic m)) = (out, Some err)).
Proof.
  intros Hm. unfold getMetric.
  destruct (Status s) as [status|]; cbn [deref rbind];
    [|split; [intros e [= <-]; auto|discriminate]].
  destruct (LoadBalancer status) as [lb|]; cbn [deref rbind];
    [|split; [intros e [= <-]; auto|discriminate]].
  destruct (Ingress lb) as [|ingress rest]; cbn [index nth_error rbind];
    [split; [intros e [= <-]; auto|discriminate]|].
  destruct ingress as [ingress|]; cbn [deref rbind];
    [|split; [intros e [= <-]; auto|discriminate]].
  destruct (Hostname ingress) as [h|]; cbn [deref rbind];
    [|split; [intros e [= <-]; auto|discriminate]].
  destruct (elbNameFromElbDNS h) as [elbName|err0|e0] eqn:Hname; cbn [rbind].
  - destruct (getElbMetric_failure w elbName (MetricName m) (Statistic m)) as [Hp Hf].
    destruct (getElbMetric w elbName (MetricName m) (Statistic m)) as [value|err1|e1];
      cbn [rbind].
    + destruct (Metadata s) as [md|]; cbn [deref rbind];
        [|split; [intros e [= <-]; auto|discriminate]].
      destruct value as [value|]; cbn [deref rbind].
      * destruct (sink_failure m elbName (Name md) (Namespace md) value reg Hm) as [Hsp Hsf].
        split.
        -- intros e He. destruct (Hsp e He); auto.
        -- intros err He. destruct (Hsf err He).
      * split; [intros e [= <-]; auto|discriminate].
    + split; [discriminate|]. intros err [= <-].
      destruct (Hf err1 eq_refl) as [out Hout]. eauto.
    + split; [|discriminate]. intros e [= <-]. rewrite (Hp e1 eq_refl). auto.
  - destruct (elbName_not_fatal _ _ Hname).
  - apply elbName_panic in Hname as ->. split; [intros e [= <-]; auto|discriminate].
Qed.

Lemma task_failure_modes_witness :
  exists m, catalog_entry_named "RequestCount" = Some m /\
            (forall e, getMetric (demo_world 1) m pending_service init = Panic e ->
                       e = NilDereference \/ e = IndexOutOfRange \/ e = CounterDecrease).
Proof.
  eexists. split; [reflexivity|].
  apply (task_failure_modes (demo_world 1) _ pending_service init).
  do 9 right. left. reflexivity.
Defined.

(** ** Service Discovery: what a returned list holds *)

Lemma range_services_ok_inv (items : list (option api_Service)) (acc res : list api_Service) :
  range_services items acc = Ok res -> res = acc ++ load_balanced items.
Proof.
  revert acc. induction items as [|item items IH]; intros acc H.
  - cbn in H. injection H as <-. now rewrite app_nil_r.
  - cbn [range_services] in H. destruct item as [s|]; [|discriminate].
    cbn [deref rbind] in H. cbn [load_balanced]. unfold is_LoadBalancer, service_type.
    destruct (Spec s) as [spec|]; [|discriminate]. cbn [deref rbind] in H.
    destruct (Type_ spec) as [ty|]; [|discriminate]. cbn [deref rbind] in H.
    destruct (String.eqb ty "LoadBalancer").
    + rewrite (IH _ H), <- app_assoc. reflexivity.
    + exact (IH _ H).
Qed.

Lemma range_namespaces_ok_inv
    (client : k8s_Client) (nss : list (option api_Namespace)) (acc res : list api_Service) :
  range_namespaces client nss acc = Ok res ->
  exists found, res = acc ++ found /\
                forall s, In s found -> service_type s = Some "LoadBalancer".
Proof.
  revert acc. induction nss as [|ns nss IH]; intros acc H.
  - cbn in H. injection H as <-. exists []. split; [now rewrite app_nil_r|intros s []].
  - cbn [range_namespaces] in H.
    destruct ns as [ns|]; [|discriminate]. cbn [deref rbind] in H.
    destruct (ns_Metadata ns) as [md|]; [|discriminate]. cbn [deref rbind] in H.
    destruct (Name md) as [name|]; [|discriminate]. cbn [deref rbind] in H.
    destruct (ListServices client name) as [svc [e|]]; [discriminate|].
    cbn [fatal_on rbind] in H.
    destruct svc as [svc|]; [|discriminate]. cbn [deref rbind] in H.
    destruct (range_services (svc_Items svc) acc) as [services| |] eqn:Hsvc; try discriminate.
    cbn [rbind] in H. apply range_services_ok_inv in Hsvc as ->.
    destruct (IH _ H) as (found & -> & Hfound).
    exists (load_balanced (svc_Items svc) ++ found). split; [now rewrite app_assoc|].
    intros s Hin. apply in_app_iff in Hin as [Hin|Hin]; [|now apply Hfound].
    apply In_load_balanced in Hin as [_ Hlb]. now apply is_LoadBalancer_type.
Qed.

(** X20.  Whatever the API server answers, a list that [getAllServices]
    returns holds services of type LoadBalancer only. *)
Theorem getAllServices_only_load_balanced (w : World) (services : list api_Service) :
  getAllServices w = Ok services ->
  forall s, In s services -> service_type s = Some "LoadBalancer".
Proof.
  unfold getAllServices.
  destruct (loadClient w) as [client [e|]]; [discriminate|]. cbn [fatal_on rbind].
  destruct client as [client|]; [|discriminate]. cbn [deref rbind].
  destruct (ListNamespaces client) as [namespaces err].
  destruct namespaces as [namespaces|]; [|discriminate]. cbn [deref rbind].
  destruct (range_namespaces client (ns_Items namespaces) []) as [res| |] eqn:Hrange;
    try discriminate.
  cbn [rbind]. intros [= <-].
  destruct (range_namespaces_ok_inv _ _ _ _ Hrange) as (found & -> & Hfound).
  exact Hfound.
Qed.

Lemma getAllServices_only_load_balanced_witness :
  getAllServices (demo_world 1) = Ok [demo_service] /\
  service_type demo_service = Some "LoadBalancer".
Proof.
  split; [exact (demo_discovery 1)|].
  apply (getAllServices_only_load_balanced (demo_world 1) [demo_service] (demo_discovery 1)).
  left. reflexivity.
Defined.

(** ** Scheduler: how long the cycles take *)

(** X21.  Cycles never begin less than a period apart: over any number of
    consecutive cycles that take no negative time, each iteration lasts the
    longer of the period and the duration of its cycle, so that [n]
    iterations take at least [n] minutes. *)
Theorem main_loop_elapsed (cs : list Cycle) (st st' : main_state) :
  main_loop cs st = Some st' ->
  Forall (fun c => 0 <= cy_elapsed c)%Z cs ->
  m_clock st' =
    (m_clock st + fold_right Z.add 0 (map (fun c => Z.max time_Minute (cy_elapsed c)) cs))%Z /\
  (m_clock st + Z.of_nat (length cs) * time_Minute <= m_clock st')%Z.
Proof.
  intros Hloop Hall. revert st Hloop.
  induction Hall as [|c cs Hpos _ IH]; intros st Hloop.
  - cbn [main_loop] in Hloop. injection Hloop as <-. cbn. lia.
  - destruct (main_loop_cons _ _ _ _ Hloop) as (st1 & H1 & Hrest).
    destruct (main_iteration_clock _ _ _ H1 Hpos) as (Hclock & _ & _).
    destruct (IH _ Hrest) as [Hsum Hmin].
    cbn [map fold_right length]. rewrite Hsum, Hclock. lia.
Qed.

Lemma main_loop_elapsed_witness :
  exists st',
    main_loop [demo_cycle 1 90000000000; demo_cycle 1 1000] (main_start 0) = Some st' /\
    m_clock st' = 150000000000%Z.
Proof.
  assert (Hok : is_some (main_loop [demo_cycle 1 90000000000; demo_cycle 1 1000]
                           (main_start 0)) = true) by (vm_compute; reflexivity).
  destruct (is_some_inv _ Hok) as [st' Hloop].
  exists st'. split; [exact Hloop|].
  destruct (main_loop_elapsed _ _ _ Hloop) as [Hclock _].
  - repeat constructor; cbn; lia.
  - rewrite Hclock. reflexivity.
Defined.

(** ** Exported Metric Set: the series of the first cycle *)

Lemma series_init (key : family * list string) : series key init = None.
Proof. destruct key as [[] lvs]; reflexivity. Qed.

Lemma bodies_create_series (w : World) (ts : list task) (reg reg' : Registry) (t : task)
    (key : family * list string) :
  Forall (fun t => In (fst t) metrics) ts ->
  run_bodies w ts reg = Ok reg' ->
  In t ts -> task_series t = Some key ->
  series key reg' <> None.
Proof.
  intros Hcat Hbodies Hin Hkey. destruct t as [m s].
  apply in_split in Hin as (l1 & l2 & ->).
  destruct (run_bodies_split _ _ _ _ _ _ _ Hbodies) as (r1 & r2 & _ & H2 & H3).
  apply Forall_app in Hcat as [_ Hcat]. apply Forall_cons in Hcat as [Hm Hcat].
  cbn [fst] in Hm.
  destruct (task_effect _ _ _ _ _ Hm H2) as (k & v & Hk & _ & _ & Hwrite & _).
  rewrite Hkey in Hk. injection Hk as <-.
  apply (bodies_keep_series _ _ _ _ _ Hcat H3). rewrite Hwrite. discriminate.
Qed.

(** X22.  Series are created by their first write and by nothing else: the
    process starts with no series, and after its first cycle has returned
    the series that exist are exactly those of the pairs of a discovered
    service and a catalog entry. *)
Theorem first_cycle_series
    (w : World) (services : list api_Service) (sched : list action) (st : cycle_state)
    (key : family * list string) :
  run w sched (cycle_start init services) = Some st ->
  c_returned st = true ->
  (series key (c_reg st) <> None <->
   exists t, In t (fanout services) /\ task_series t = Some key).
Proof.
  intros Hrun Hret. split.
  - intros Hsome.
    destruct (decide (Exists (fun t => task_series t = Some key) (fanout services)))
      as [Hex|Hnone].
    + apply List.Exists_exists in Hex. exact Hex.
    + exfalso. apply Hsome. rewrite <- (series_init key).
      apply (run_frame _ _ _ _ _ _ Hrun).
      intros t Hin Hkey. apply Hnone, List.Exists_exists. eauto.
  - intros (t & Hin & Hkey).
    pose proof (cycle_inv_run _ _ _ _ _ _ (cycle_inv_start w init services) Hrun) as Hinv.
    pose proof (cycle_inv_ran_catalog _ _ _ _ Hinv) as Hcat.
    destruct (cycle_inv_returned _ _ _ _ Hinv Hret) as (Hperm & _ & _ & _ & _ & Hbodies).
    apply (bodies_create_series _ _ _ _ t key Hcat Hbodies); [|exact Hkey].
    eapply Permutation_in; [symmetry; exact Hperm|exact Hin].
Qed.

Lemma first_cycle_series_witness :
  exists st,
    run (demo_world 1) (sequential 13) (cycle_start init [demo_service]) = Some st /\
    series (FElbLatency, demo_labels) (c_reg st) <> None.
Proof.
  destruct cycle_returns_demo as (st & Hrun & Hret).
  exists st. split; [exact Hrun|].
  apply (first_cycle_series _ _ _ _ (FElbLatency, demo_labels) Hrun Hret).
  destruct (catalog_entry "Latency" "Average") as (m & Hm & Hname & _); [vm_compute; tauto|].
  exists (m, demo_service). split.
  - apply in_fanout. split; [exact Hm|now left].
  - unfold task_series. cbn [fst snd]. rewrite Hname, demo_service_labels. reflexivity.
Defined.
